(** * tim-homelab: the host-side automation scripts, verified

    A shallow embedding of the three scripts of the repository

    - [scripts/add_adlists.py]          (the adlist provisioner),
    - [scripts/auto_patch_backup.py]    (the backup patcher),
    - [scripts/inspect_backup_image.py] (the backup image inspector),

    followed by the properties of them that the specification states.

    Python [str] values are Rocq [string]s.  The scripts only inspect
    the ASCII characters ['/'], ['_'], ['.'] and the letters of
    ["pihole"], so reading a [string] as the UTF-8 bytes of the Python
    text changes none of the results below.  The scripts run on a POSIX
    host ([sudo], [/etc/pihole]), so [os.sep] is ["/"] and [Path] is
    [PosixPath]. *)

From Stdlib Require Import ZArith Ascii String List Bool Lia.
From stdpp Require Import base strings list gmap sorting.

Local Open Scope Z_scope.

(** ** Python built-ins the scripts call *)

Module Py.

(** [s.startswith(p)] *)
Fixpoint startswith (s p : string) {struct p} : bool :=
  match p with
  | EmptyString => true
  | String b p' =>
      match s with
      | EmptyString => false
      | String a s' => Ascii.eqb a b && startswith s' p'
      end
  end.

(** [s.endswith(p)] is only used through [glob("*.tar.gz")]. *)
Definition endswith (s p : string) : bool :=
  startswith (String.rev s) (String.rev p).

(** [s.lstrip(c)] for a one-character set [c] *)
Fixpoint lstrip (c : ascii) (s : string) : string :=
  match s with
  | EmptyString => EmptyString
  | String a s' => if Ascii.eqb a c then lstrip c s' else s
  end.

(** [s.replace(old, new)] for a one-character [old] *)
Fixpoint replace (old : ascii) (new : string) (s : string) : string :=
  match s with
  | EmptyString => EmptyString
  | String a s' =>
      if Ascii.eqb a old then new +:+ replace old new s'
      else String a (replace old new s')
  end.

(** [s.split(sep)] for a one-character [sep] *)
Fixpoint split (sep : ascii) (s : string) : list string :=
  match s with
  | EmptyString => [EmptyString]
  | String a s' =>
      if Ascii.eqb a sep then EmptyString :: split sep s'
      else
        match split sep s' with
        | x :: xs => String a x :: xs
        | [] => [String a EmptyString]
        end
  end.

(** [sep.join(l)] *)
Fixpoint join (sep : string) (l : list string) : string :=
  match l with
  | [] => EmptyString
  | [x] => x
  | x :: l' => x +:+ sep +:+ join sep l'
  end.

(** [p in s] on strings: [p] occurs in [s] as a substring *)
Fixpoint contains (s p : string) : bool :=
  startswith s p ||
  match s with
  | EmptyString => false
  | String _ s' => contains s' p
  end.

(** [c.lower()] on the ASCII letters; other bytes are left alone *)
Definition lower_ascii (c : ascii) : ascii :=
  let n := N_of_ascii c in
  if ((65 <=? n) && (n <=? 90))%N then ascii_of_N (n + 32) else c.

(** [s.lower()] *)
Fixpoint lower (s : string) : string :=
  match s with
  | EmptyString => EmptyString
  | String a s' => String (lower_ascii a) (lower s')
  end.

(** [sorted(l)] on a list of [str]: the order is the lexicographic one
    on character codes, [String.le]. *)
Definition sorted (l : list string) : list string :=
  merge_sort String.le l.

(** [l[-1]] on a non-empty list; [None] stands for the [IndexError]. *)
Definition last_item (l : list string) : option string := last l.

(** [x or d] where [x] is a JSON string or is missing/null *)
Definition or_else (x : option string) (d : string) : string :=
  match x with
  | Some (String a s) => String a s
  | _ => d
  end.

(** Order-preserving removal of repeats, as the scripts do with a
    [seen] set: [[p for p in l if not (p in seen or seen.add(p))]]. *)
Fixpoint dedup_seen (seen : gset string) (l : list string) : list string :=
  match l with
  | [] => []
  | p :: l' =>
      if decide (p ∈ seen) then dedup_seen seen l'
      else p :: dedup_seen ({[p]} ∪ seen) l'
  end.

End Py.

(** ** [pathlib.PurePosixPath]: what [str(Path(s))] returns *)

Module PosixPath.

(** [posixpath.splitroot]: the root is ["//"] for exactly two leading
    slashes, ["/"] for one or for three and more, and empty otherwise. *)
Definition splitroot (s : string) : string * string :=
  match s with
  | String "/" (String "/" (String "/" r)) => ("/", String "/" (String "/" r))
  | String "/" (String "/" r) => ("//", r)
  | String "/" r => ("/", r)
  | _ => (EmptyString, s)
  end.

Definition kept_part (x : string) : bool :=
  negb (String.eqb x "") && negb (String.eqb x ".").

(** [str(Path(s))]: empty and ["."] components are dropped, [".."] is
    kept, and the empty path prints as ["."]. *)
Definition norm (s : string) : string :=
  let '(root, rel) := splitroot s in
  let tail := List.filter kept_part (Py.split "/" rel) in
  let r := root +:+ Py.join "/" tail in
  if String.eqb r "" then "." else r.

(** The directories [mkdir(parents=True)] makes sure of: the path and
    every ancestor of it. *)
Definition lineage (s : string) : list string :=
  let '(root, rel) := splitroot s in
  let tail := List.filter kept_part (Py.split "/" rel) in
  List.map
    (λ k, let r := root +:+ Py.join "/" (take k tail) in
          if String.eqb r "" then "." else r)
    (seq 0 (S (length tail))).

(** [os.path.join(a, b)] *)
Definition os_join (a b : string) : string :=
  if Py.startswith b "/" then b
  else if String.eqb a "" || Py.endswith a "/" then a +:+ b
  else a +:+ "/" +:+ b.

(** [str(Path(a) / b)] *)
Definition join (a b : string) : string := norm (os_join (norm a) b).

End PosixPath.

(** ** Effects: a process state, Python exceptions, [try]/[except]/[finally] *)

Module Eff.

(** The argument of [SystemExit]: [sys.exit(n)] or
    [raise SystemExit("text")], which prints the text to the error
    stream and exits with status 1. *)
Inductive exit_arg :=
| Code (n : Z)
| Text (s : string).

Inductive exn :=
| SystemExit (a : exit_arg)
| CalledProcessError (returncode : Z) (cmd : list string)
| TypeError (what : string)
| OperationalError (what : string).

Inductive result (A : Type) :=
| Ok (a : A)
| Raised (e : exn).
Arguments Ok {A} a.
Arguments Raised {A} e.

(** A computation over the process state [S]. *)
Definition M (S A : Type) : Type := S → result A * S.

Definition ret {S A} (a : A) : M S A := λ s, (Ok a, s).

Definition bind {S A B} (m : M S A) (k : A → M S B) : M S B :=
  λ s, match m s with
       | (Ok a, s') => k a s'
       | (Raised e, s') => (Raised e, s')
       end.

Definition raise {S A} (e : exn) : M S A := λ s, (Raised e, s).

Definition get {S} : M S S := λ s, (Ok s, s).

Definition modify {S} (f : S → S) : M S unit := λ s, (Ok tt, f s).

(** [try: body  except E as e: handler e]; [handler] decides which
    exceptions it takes and re-raises the others. *)
Definition try_except {S A} (body : M S A) (handler : exn → M S A) : M S A :=
  λ s, match body s with
       | (Ok a, s') => (Ok a, s')
       | (Raised e, s') => handler e s'
       end.

(** [try: body  finally: cleanup] *)
Definition try_finally {S A} (body : M S A) (cleanup : M S unit) : M S A :=
  λ s, match body s with
       | (r, s') =>
           match cleanup s' with
           | (Ok _, s'') => (r, s'')
           | (Raised e, s'') => (Raised e, s'')
           end
       end.

(** [for x in l: acc = body(acc, x)]: a loop whose local variables
    are [acc]; [continue] is returning [acc] unchanged. *)
Fixpoint for_fold {S A B} (l : list A) (acc : B) (body : B → A → M S B)
  : M S B :=
  match l with
  | [] => ret acc
  | x :: l' => bind (body acc x) (λ acc', for_fold l' acc' body)
  end.

(** The exit status of the process that ends with [r]. *)
Definition exit_status {A} (r : result A) : Z :=
  match r with
  | Ok _ => 0
  | Raised (SystemExit (Code n)) => n
  | Raised _ => 1
  end.

End Eff.

Notation "x <- m ;; k" := (Eff.bind m (λ x, k))
  (at level 100, m at next level, right associativity, only parsing).
Notation "m ;;; k" := (Eff.bind m (λ _, k))
  (at level 100, right associativity, only parsing).

(** ** The backup patcher, [scripts/auto_patch_backup.py] *)

Module Patcher.

Definition DEFAULT_EXPECT : list string := ["pihole"; "caddy"; "homepage"].

(** [DEFAULT_PREFIXES]; [home] is [str(Path.home())]. *)
Definition DEFAULT_PREFIXES (home : string) : list string :=
  [home; "/etc/pihole"; "/etc/dnsmasq.d"; "/etc/caddy"; "/etc/caddy_config"].

(** [/a/b/c -> a__b__c.tar.gz] *)
Definition safe_archive_name_from_src (src : string) : string :=
  Py.replace "/" "__" (Py.lstrip "/" src) +:+ ".tar.gz".

(** The body of the loop of [should_include_path]: the test made for
    one prefix.  [Path(src)] does not raise on a [str], so the
    [except] branch is never taken. *)
Definition under_prefix (src p : string) : bool :=
  let p_norm := PosixPath.norm p in
  let src_norm := PosixPath.norm src in
  String.eqb src_norm p_norm || Py.startswith src_norm (p_norm +:+ "/").

Fixpoint should_include_path (src : string) (prefixes : list string) : bool :=
  match prefixes with
  | [] => false
  | p :: rest =>
      if under_prefix src p then true else should_include_path src rest
  end.

(** *** The host the patcher runs on *)

(** One item of [Mounts] in the output of [docker inspect]; a field
    is [None] when the key is missing or [null]. *)
Record Mount := {
  mType : option string;
  mSource : option string;
  mDestination : option string;
  mTarget : option string;
}.

(** One element of the array [docker inspect] prints. *)
Record Inspect := {
  ConfigImage : option string;
  Image : option string;
  Mounts : option (list Mount);
}.

Record Args := {
  backup : option string;
  containers : list string;
  extra_prefix : list string;
  dry_run : bool;
  rebuild_image : bool;
}.

(** What the host answers.  [returncode] is the exit status of a
    subprocess, [effect] what running it does to the file system;
    both are left to the host, the scripts only look at the status. *)
Record Host := {
  home : string;
  owner : string;
  returncode : list string → Z;
  effect : list string → gset string → gset string;
  inspect_json : string → list Inspect;
  latest_backup : option string;
}.

(** A candidate [(container, src, dst)]. *)
Definition bind_mount := (string * string * string)%type.
Definition src_of (b : bind_mount) : string := b.1.2.

Inductive message :=
| ErrNoBackup
| UsingBackup (root : string)
| ErrSudoRequired
| WarnNoContainers
| ReportBefore (present : list string)
| NothingMissing
| WillCreate (missing : list (bind_mount * string))
| WouldArchive (src archive_path : string)
| Archiving (src cname archive_path : string)
| ErrTarFailed (src : string) (e : Eff.exn)
| ReportAfter (present : list (string * bool))
| NoteNoScript (script : string)
| Rebuilding
| ErrRebuildFailed (e : Eff.exn)
| AllDone.

Inductive event :=
| Run (argv : list string)
| Mkdir (dir : string)
| Stdout (m : message)
| Stderr (m : message).

(** The paths that exist on the host, and what the run did so far. *)
Record World := {
  fs : gset string;
  log : list event;
}.

Definition emit (e : event) : Eff.M World unit :=
  Eff.modify (λ w, {| fs := fs w; log := log w ++ [e] |}).

Definition print (m : message) : Eff.M World unit := emit (Stdout m).
Definition eprint (m : message) : Eff.M World unit := emit (Stderr m).

(** [subprocess.run(argv, check=True)] *)
Definition subprocess_run (h : Host) (argv : list string) : Eff.M World unit :=
  emit (Run argv) ;;;
  Eff.modify (λ w, {| fs := effect h argv (fs w); log := log w |}) ;;;
  if returncode h argv =? 0 then Eff.ret tt
  else Eff.raise (Eff.CalledProcessError (returncode h argv) argv).

(** [Path(p).exists()] *)
Definition path_exists (p : string) : Eff.M World bool :=
  w <- Eff.get ;; Eff.ret (bool_decide (PosixPath.norm p ∈ fs w)).

(** [Path(p).mkdir(parents=True, exist_ok=True)] *)
Definition mkdir_parents (p : string) : Eff.M World unit :=
  emit (Mkdir p) ;;;
  Eff.modify (λ w, {| fs := list_to_set (PosixPath.lineage p) ∪ fs w;
                      log := log w |}).

(** The name of [p] inside the directory [dirpath], when [p] is a
    direct entry of it. *)
Definition entry_name (dirpath p : string) : option string :=
  let d := PosixPath.os_join dirpath "" in
  if Py.startswith p d then
    let n := String.substring (String.length d) (String.length p) p in
    if negb (String.eqb n "") && negb (Py.contains n "/") then Some n
    else None
  else None.

Definition archives_in (files : gset string) (dirpath : string) : gset string :=
  if bool_decide (dirpath ∈ files) then
    list_to_set
      (List.filter (λ n, Py.endswith n ".tar.gz")
         (omap (entry_name dirpath) (elements files)))
  else ∅.

Definition list_archives (dirpath : string) : Eff.M World (gset string) :=
  w <- Eff.get ;; Eff.ret (archives_in (fs w) (PosixPath.norm dirpath)).

Definition sudo_ok (h : Host) : Eff.M World bool :=
  Eff.try_except
    (subprocess_run h ["sudo"; "-v"] ;;; Eff.ret true)
    (λ e, match e with
          | Eff.CalledProcessError _ _ => Eff.ret false
          | _ => Eff.raise e
          end).

Definition docker_inspect (h : Host) (container : string)
  : Eff.M World (option Inspect) :=
  Eff.try_except
    (subprocess_run h ["docker"; "inspect"; container] ;;;
     Eff.ret (head (inspect_json h container)))
    (λ e, match e with
          | Eff.CalledProcessError _ _ => Eff.ret None
          | _ => Eff.raise e
          end).

(** [d[k] = v] on a [dict], which keeps the order of first insertion. *)
Fixpoint dict_set {V} (k : string) (v : V) (d : list (string * V))
  : list (string * V) :=
  match d with
  | [] => [(k, v)]
  | (k', v') :: d' =>
      if String.eqb k' k then (k, v) :: d' else (k', v') :: dict_set k v d'
  end.

Definition has_type (t : string) (m : Mount) : bool :=
  match mType m with
  | Some t' => String.eqb t' t
  | None => false
  end.

Definition mounts_info := (string * list Mount * list Mount)%type.

Definition gather_container_mounts (h : Host) (containers : list string)
  : Eff.M World (list (string * mounts_info)) :=
  Eff.for_fold containers []
    (λ info name,
       data <- docker_inspect h name ;;
       match data with
       | None => Eff.ret info
       | Some data =>
           let image :=
             match ConfigImage data with
             | Some (String a i) => String a i
             | _ => default "" (Image data)
             end in
           let mounts := default [] (Mounts data) in
           let vols := List.filter (has_type "volume") mounts in
           let binds := List.filter (has_type "bind") mounts in
           Eff.ret (dict_set name (image, vols, binds) info)
       end).

(** *** [ensure_bind_archives] *)

Definition tar_argv (archive_path rel : string) : list string :=
  ["sudo"; "tar"; "czf"; archive_path; "-C"; "/"; rel].

Definition chown_argv (h : Host) (archive_path : string) : list string :=
  ["sudo"; "chown"; owner h; archive_path].

(** The body of the [for] loop; [created] is the loop's local list. *)
Definition archive_one (h : Host) (bind_dir : string) (dry_run : bool)
    (existing : gset string) (created : list string) (b : bind_mount)
  : Eff.M World (list string) :=
  let '(cname, src, dst) := b in
  let arc := safe_archive_name_from_src src in
  if bool_decide (arc ∈ existing) then Eff.ret created
  else
    let archive_path := PosixPath.join bind_dir arc in
    if dry_run then
      print (WouldArchive src archive_path) ;;;
      Eff.ret (created ++ [arc])
    else
      let rel := Py.lstrip "/" src in
      Eff.try_except
        (print (Archiving src cname archive_path) ;;;
         subprocess_run h (tar_argv archive_path rel) ;;;
         subprocess_run h (chown_argv h archive_path) ;;;
         Eff.ret (created ++ [arc]))
        (λ e, match e with
              | Eff.CalledProcessError _ _ =>
                  eprint (ErrTarFailed src e) ;;; Eff.ret created
              | _ => Eff.raise e
              end).

Definition ensure_bind_archives (h : Host) (bind_mounts : list bind_mount)
    (bind_dir : string) (dry_run : bool) : Eff.M World (list string) :=
  mkdir_parents bind_dir ;;;
  existing <- list_archives bind_dir ;;
  Eff.for_fold bind_mounts [] (archive_one h bind_dir dry_run existing).

Definition rebuild_backup_image (h : Host) (make_script : string)
  : Eff.M World unit :=
  print Rebuilding ;;;
  Eff.try_except
    (subprocess_run h [make_script])
    (λ e, match e with
          | Eff.CalledProcessError _ _ => eprint (ErrRebuildFailed e)
          | _ => Eff.raise e
          end).

(** *** [main] *)

Definition must_paths : list string := ["/etc/pihole"; "/etc/dnsmasq.d"].

(** "Always include Pi-hole key paths" *)
Definition gather_must (allowed : list string)
  : Eff.M World (list bind_mount) :=
  Eff.for_fold must_paths []
    (λ candidates must,
       if should_include_path must allowed then
         ex <- path_exists must ;;
         if ex then Eff.ret (candidates ++ [("pihole", must, must)])
         else Eff.ret candidates
       else Eff.ret candidates).

(** "Include binds reported by docker inspect" *)
Definition gather_binds (allowed : list string)
    (info : list (string * mounts_info)) (candidates : list bind_mount)
  : Eff.M World (list bind_mount) :=
  Eff.for_fold info candidates
    (λ candidates entry,
       let '(cname, (_, _, binds)) := entry in
       Eff.for_fold binds candidates
         (λ candidates m,
            let src := Py.or_else (mSource m) "" in
            let dst := Py.or_else (mDestination m) (Py.or_else (mTarget m) "") in
            if String.eqb src "" || String.eqb dst "" then Eff.ret candidates
            else
              ex <- path_exists src ;;
              if ex && should_include_path src allowed
              then Eff.ret (candidates ++ [(cname, src, dst)])
              else Eff.ret candidates)).

(** "De-duplicate by source path (keep first occurrence)" *)
Fixpoint dedup_by_src (seen_src : gset string) (candidates : list bind_mount)
  : list bind_mount :=
  match candidates with
  | [] => []
  | tup :: rest =>
      if bool_decide (src_of tup ∈ seen_src) then dedup_by_src seen_src rest
      else tup :: dedup_by_src ({[src_of tup]} ∪ seen_src) rest
  end.

(** "Which ones are missing?" *)
Fixpoint missing_of (existing : gset string) (filtered : list bind_mount)
  : list (bind_mount * string) :=
  match filtered with
  | [] => []
  | tup :: rest =>
      let arc := safe_archive_name_from_src (src_of tup) in
      if bool_decide (arc ∉ existing) then (tup, arc) :: missing_of existing rest
      else missing_of existing rest
  end.

Definition patch (h : Host) (args : Args) (backup_root : string)
  : Eff.M World unit :=
  let backup_binds := PosixPath.join backup_root "bind-mounts" in
  print (UsingBackup backup_root) ;;;
  (if dry_run args then Eff.ret tt
   else
     ok <- sudo_ok h ;;
     if ok then Eff.ret tt
     else eprint ErrSudoRequired ;;; Eff.raise (Eff.SystemExit (Eff.Code 1))) ;;;
  let allowed :=
    Py.dedup_seen ∅ (DEFAULT_PREFIXES (home h) ++ extra_prefix args) in
  info <- gather_container_mounts h (containers args) ;;
  (match info with
   | [] => eprint WarnNoContainers
   | _ => Eff.ret tt
   end) ;;;
  candidates <- gather_must allowed ;;
  candidates <- gather_binds allowed info candidates ;;
  let filtered := dedup_by_src ∅ candidates in
  existing <- list_archives backup_binds ;;
  print (ReportBefore (Py.sorted (elements existing))) ;;;
  let missing := missing_of existing filtered in
  (match missing with
   | [] => print NothingMissing
   | _ => print (WillCreate missing)
   end) ;;;
  created <- ensure_bind_archives h (List.map fst missing) backup_binds
               (dry_run args) ;;
  final <- list_archives backup_binds ;;
  print (ReportAfter
           (List.map (λ n, (n, bool_decide (n ∈ created)))
              (Py.sorted (elements final)))) ;;;
  (if rebuild_image args then
     let make_script := PosixPath.join (home h) "make-backup-image.sh" in
     ex <- path_exists make_script ;;
     if ex then rebuild_backup_image h make_script
     else eprint (NoteNoScript make_script)
   else Eff.ret tt) ;;;
  print AllDone.

(** [main], after [argparse].  [read_latest_backup()] only reads the
    host; its answer is [latest_backup]. *)
Definition main (h : Host) (args : Args) : Eff.M World unit :=
  let backup_root :=
    match backup args with
    | Some (String a p) => Some (PosixPath.norm (String a p))
    | _ => latest_backup h
    end in
  match backup_root with
  | None => eprint ErrNoBackup ;;; Eff.raise (Eff.SystemExit (Eff.Code 2))
  | Some root =>
      ex <- path_exists root ;;
      if ex then patch h args root
      else eprint ErrNoBackup ;;; Eff.raise (Eff.SystemExit (Eff.Code 2))
  end.

End Patcher.

Example norm_samples :
  List.map PosixPath.norm
    [""; "."; "/"; "//"; "///"; "//a"; "///a"; "/a/"; "/a//b/./c/"; "a/b/";
     "./a"; "a/.."; "/etc/pihole/"; "/."; "//."; "a//"; "////a//"]
  = ["."; "."; "/"; "//"; "/"; "//a"; "/a"; "/a"; "/a/b/c"; "a/b";
     "a"; "a/.."; "/etc/pihole"; "/"; "//"; "a"; "/a"].
Proof. reflexivity. Qed.

Example archive_name_samples :
  List.map Patcher.safe_archive_name_from_src ["///a/b"; "a/b"; "/a__b/c"; "/"]
  = ["a__b.tar.gz"; "a__b.tar.gz"; "a__b__c.tar.gz"; ".tar.gz"].
Proof. reflexivity. Qed.

(** ** The adlist provisioner, [scripts/add_adlists.py] *)

Module Provisioner.

Definition ADLISTS : list (string * string) :=
  [("https://big.oisd.nl/", "OISD Big");
   ("https://v.firebog.net/hosts/Easyprivacy.txt", "EasyPrivacy (Firebog)");
   ("https://v.firebog.net/hosts/AdguardDNS.txt", "AdGuard DNS (Firebog)")].

Definition DB_PATH_IN_CONTAINER : string := "/etc/pihole/gravity.db".
Definition DEFAULT_GROUP_ID : Z := 0.

(** *** The gravity database *)

Record group_row := {
  g_id : Z;
  g_enabled : Z;
  g_name : string;
  g_description : string;
}.

Record adlist_row := {
  a_id : Z;
  a_address : string;
  a_enabled : Z;
  a_date_added : Z;
  a_date_modified : Z;
  a_comment : string;
}.

(** The part of the database file the script touches: the three
    tables, each absent ([None]) or present with its rows in rowid
    order.  A link is a row [(adlist_id, group_id)]. *)
Record Db := {
  group_t : option (list group_row);
  adlist_t : option (list adlist_row);
  adlist_by_group_t : option (list (Z * Z));
}.

(** [SELECT name FROM sqlite_master WHERE type='table'], as far as the
    three names go. *)
Definition table_names (db : Db) : list string :=
  (if group_t db is Some _ then ["group"] else []) ++
  (if adlist_t db is Some _ then ["adlist"] else []) ++
  (if adlist_by_group_t db is Some _ then ["adlist_by_group"] else []).

(** The statements the script executes. *)
Inductive statement :=
| SelectTables
| InsertGroup
| UpdateGroup
| InsertAdlist (url desc : string)
| UpdateAdlist (desc url : string)
| InsertLink (url : string)
| SelectAdlists.

Definition default_group : group_row :=
  {| g_id := DEFAULT_GROUP_ID; g_enabled := 1;
     g_name := "Default"; g_description := "Auto-created" |}.

Definition enable_group (g : group_row) : group_row :=
  {| g_id := g_id g; g_enabled := 1;
     g_name := g_name g; g_description := g_description g |}.

(** The rowid SQLite gives a new row: one more than the greatest. *)
Definition next_rowid (rows : list adlist_row) : Z :=
  match List.map a_id rows with
  | [] => 1
  | i :: ids => 1 + foldr Z.max i ids
  end.

Definition refresh (now : Z) (desc : string) (a : adlist_row) : adlist_row :=
  {| a_id := a_id a; a_address := a_address a; a_enabled := 1;
     a_date_added := a_date_added a; a_date_modified := now;
     a_comment := desc |}.

(** Modelled from the spec: the schema of the gravity database, which
    the repository does not hold ("schema is an external contract").
    A group is identified by its [id], an adlist is "unique by [url]",
    and there is one link per pair of adlist and group; these are the
    conflicts on which [INSERT OR IGNORE] leaves the table alone. *)
Definition insert_group (rows : list group_row) : list group_row :=
  if existsb (λ g, g_id g =? DEFAULT_GROUP_ID) rows then rows
  else rows ++ [default_group].

Definition update_group (rows : list group_row) : list group_row :=
  List.map (λ g, if g_id g =? DEFAULT_GROUP_ID then enable_group g else g) rows.

Definition insert_adlist (now : Z) (url desc : string)
    (rows : list adlist_row) : list adlist_row :=
  if existsb (λ a, String.eqb (a_address a) url) rows then rows
  else rows ++ [{| a_id := next_rowid rows; a_address := url; a_enabled := 1;
                   a_date_added := now; a_date_modified := now;
                   a_comment := desc |}].

Definition update_adlist (now : Z) (desc url : string)
    (rows : list adlist_row) : list adlist_row :=
  List.map (λ a, if String.eqb (a_address a) url then refresh now desc a else a)
    rows.

Definition add_link (links : list (Z * Z)) (l : Z * Z) : list (Z * Z) :=
  if bool_decide (l ∈ links) then links else links ++ [l].

(** [INSERT OR IGNORE INTO adlist_by_group(adlist_id, group_id)
    SELECT id, 0 FROM adlist WHERE address=?] *)
Definition insert_link (url : string) (rows : list adlist_row)
    (links : list (Z * Z)) : list (Z * Z) :=
  foldl add_link links
    (List.map (λ a, (a_id a, DEFAULT_GROUP_ID))
       (List.filter (λ a, String.eqb (a_address a) url) rows)).

(** What a statement executed at time [now] ([strftime('%s','now')])
    makes of the database; [None] is SQLite's "no such table". *)
Definition apply_stmt (now : Z) (st : statement) (db : Db) : option Db :=
  match st with
  | SelectTables => Some db
  | InsertGroup =>
      g ← group_t db;
      Some {| group_t := Some (insert_group g); adlist_t := adlist_t db;
              adlist_by_group_t := adlist_by_group_t db |}
  | UpdateGroup =>
      g ← group_t db;
      Some {| group_t := Some (update_group g); adlist_t := adlist_t db;
              adlist_by_group_t := adlist_by_group_t db |}
  | InsertAdlist url desc =>
      a ← adlist_t db;
      Some {| group_t := group_t db;
              adlist_t := Some (insert_adlist now url desc a);
              adlist_by_group_t := adlist_by_group_t db |}
  | UpdateAdlist desc url =>
      a ← adlist_t db;
      Some {| group_t := group_t db;
              adlist_t := Some (update_adlist now desc url a);
              adlist_by_group_t := adlist_by_group_t db |}
  | InsertLink url =>
      a ← adlist_t db;
      l ← adlist_by_group_t db;
      Some {| group_t := group_t db; adlist_t := Some a;
              adlist_by_group_t := Some (insert_link url a l) |}
  | SelectAdlists => _ ← adlist_t db; Some db
  end.

(** *** The host the provisioner runs on *)

Record Args := {
  container : option string;
  dry_run : bool;
  list_only : bool;
}.

(** What the host answers: the exit status of a subprocess, what the
    subprocess does to the gravity database inside the container, the
    lines [docker ps] prints, the text a listing prints, and, after
    [n] events of the run, the name of a fresh temporary directory
    and the time. *)
Record Host := {
  returncode : list string → Z;
  exec_effect : list string → option Db → option Db;
  ps_out : list string;
  stdout_of : list string → string;
  tmpdir : nat → string;
  clock : nat → Z;
}.

Inductive message :=
| TargetContainer (container : string)
| Ensuring
| WouldRunSql (sql : string)
| WouldEdit (local_db : string)
| SkippingGravity
| RebuildingGravity
| DoneCurrent
| Listing (out : string)
| ListingRows (rows : list (Z * Z * string * string)).

Inductive event :=
| Run (argv : list string)
| Mkdtemp (dir : string)
| Cleanup (dir : string)
| Sql (st : statement)
| Commit
| Close
| Stdout (m : message).

(** The database inside the container, the database files on the
    host, and what the run did so far. *)
Record World := {
  gravity : option Db;
  files : gmap string Db;
  log : list event;
}.

Definition emit (e : event) : Eff.M World unit :=
  Eff.modify (λ w, {| gravity := gravity w; files := files w;
                      log := log w ++ [e] |}).

Definition print (m : message) : Eff.M World unit := emit (Stdout m).

(** A subprocess; [exec_effect] says what it does to the database
    inside the container. *)
Definition spawn (h : Host) (argv : list string) : Eff.M World Z :=
  emit (Run argv) ;;;
  Eff.modify (λ w, {| gravity := exec_effect h argv (gravity w);
                      files := files w; log := log w |}) ;;;
  Eff.ret (returncode h argv).

(** [run(cmd)], [check=True] *)
Definition run (h : Host) (argv : list string) : Eff.M World unit :=
  rc <- spawn h argv ;;
  if rc =? 0 then Eff.ret tt else Eff.raise (Eff.CalledProcessError rc argv).

Definition in_container (container path : string) : string :=
  container +:+ ":" +:+ path.

(** [docker cp container:DB local_db] *)
Definition cp_out_argv (container local_db : string) : list string :=
  ["docker"; "cp"; in_container container DB_PATH_IN_CONTAINER; local_db].

Definition docker_cp_out (h : Host) (container local_db : string)
  : Eff.M World unit :=
  let argv := cp_out_argv container local_db in
  emit (Run argv) ;;;
  if returncode h argv =? 0 then
    Eff.modify (λ w, {| gravity := gravity w;
                        files := match gravity w with
                                 | Some db => <[local_db := db]> (files w)
                                 | None => files w
                                 end;
                        log := log w |})
  else Eff.raise (Eff.CalledProcessError (returncode h argv) argv).

(** [docker cp local_db container:DB] *)
Definition docker_cp_in (h : Host) (local_db container : string)
  : Eff.M World unit :=
  let argv := ["docker"; "cp"; local_db;
               in_container container DB_PATH_IN_CONTAINER] in
  emit (Run argv) ;;;
  if returncode h argv =? 0 then
    Eff.modify (λ w, {| gravity := match files w !! local_db with
                                   | Some db => Some db
                                   | None => gravity w
                                   end;
                        files := files w; log := log w |})
  else Eff.raise (Eff.CalledProcessError (returncode h argv) argv).

(** [with tempfile.TemporaryDirectory() as td: body(td)] *)
Definition with_tempdir {A} (h : Host) (body : string → Eff.M World A)
  : Eff.M World A :=
  w <- Eff.get ;;
  let td := tmpdir h (length (log w)) in
  emit (Mkdtemp td) ;;;
  Eff.try_finally (body td)
    (emit (Cleanup td) ;;;
     Eff.modify
       (λ w, {| gravity := gravity w;
                files := filter
                           (λ kv, Py.startswith kv.1 (PosixPath.os_join td "")
                                  = false)
                           (files w);
                log := log w |})).

(** *** The script *)

Definition ps_argv : list string := ["docker"; "ps"; "--format"; "{{.Names}}"].

Definition no_container : string :=
  "Couldn't detect a Pi-hole container automatically. Pass --container <name>.".

(** The two tests of [detect_container_name] on [out], the lines that
    [docker ps] printed. *)
Definition pick_container (out : list string) : option string :=
  if bool_decide ("pihole" ∈ out) then Some "pihole"
  else List.find (λ n, Py.contains (Py.lower n) "pihole") out.

Definition detect_container_name (h : Host) : Eff.M World string :=
  found <- Eff.try_except
             (run h ps_argv ;;; Eff.ret (pick_container (ps_out h)))
             (λ e, match e with
                   | Eff.SystemExit _ => Eff.raise e
                   | _ => Eff.ret None
                   end) ;;
  match found with
  | Some n => Eff.ret n
  | None => Eff.raise (Eff.SystemExit (Eff.Text no_container))
  end.

Definition has_sqlite3_argv (container : string) : list string :=
  ["docker"; "exec"; container; "bash"; "-lc";
   "command -v sqlite3 >/dev/null 2>&1"].

(** [check=False]: the status is the answer. *)
Definition container_has_sqlite3 (h : Host) (container : string)
  : Eff.M World bool :=
  rc <- spawn h (has_sqlite3_argv container) ;; Eff.ret (rc =? 0).

(** A line feed and a double quote, for the SQL text. *)
Definition nl : string := String (ascii_of_nat 10) EmptyString.
Definition dq : string := String (ascii_of_nat 34) EmptyString.

Definition ensure_default_group_sql : string :=
  nl +:+ "INSERT OR IGNORE INTO " +:+ dq +:+ "group" +:+ dq +:+
    "(id, enabled, name, description)" +:+ nl +:+
  "VALUES (0, 1, 'Default', 'Auto-created');" +:+ nl +:+
  "UPDATE " +:+ dq +:+ "group" +:+ dq +:+ " SET enabled=1 WHERE id=0;" +:+ nl.

Definition upsert_adlist_sql (url comment : string) : string :=
  let u := Py.replace "'" "''" url in
  let c := Py.replace "'" "''" comment in
  nl +:+ "INSERT OR IGNORE INTO adlist(address, enabled, date_added, date_modified, comment)" +:+ nl +:+
  "VALUES ('" +:+ u +:+ "', 1, strftime('%s','now'), strftime('%s','now'), '" +:+ c +:+ "');" +:+ nl +:+
  "UPDATE adlist" +:+ nl +:+
  "   SET enabled=1," +:+ nl +:+
  "       date_modified=strftime('%s','now')," +:+ nl +:+
  "       comment='" +:+ c +:+ "'" +:+ nl +:+
  " WHERE address='" +:+ u +:+ "';" +:+ nl +:+
  "INSERT OR IGNORE INTO adlist_by_group(adlist_id, group_id)" +:+ nl +:+
  "SELECT id, 0 FROM adlist WHERE address='" +:+ u +:+ "';" +:+ nl.

(** [shlex.quote] leaves [DB_PATH_IN_CONTAINER] as it is. *)
Definition exec_sql_argv (container sql : string) : list string :=
  ["docker"; "exec"; "-i"; container; "bash"; "-lc";
   "sqlite3 " +:+ DB_PATH_IN_CONTAINER +:+ " <<'SQL'" +:+ nl +:+ sql +:+ nl +:+ "SQL"].

Definition exec_sql_in_container (h : Host) (container sql : string)
  : Eff.M World unit :=
  run h (exec_sql_argv container sql).

(** [cur.execute(st)] on the connection whose pending state is [db] *)
Definition execute (h : Host) (st : statement) (db : Db) : Eff.M World Db :=
  w <- Eff.get ;;
  emit (Sql st) ;;;
  match apply_stmt (clock h (length (log w))) st db with
  | Some db' => Eff.ret db'
  | None => Eff.raise (Eff.OperationalError "no such table")
  end.

Definition need : list string := ["adlist"; "adlist_by_group"; "group"].

(** [miss = need - have] *)
Definition missing_tables (db : Db) : list string :=
  List.filter (λ t, bool_decide (t ∉ table_names db)) need.

Definition upsert (h : Host) (db : Db) (entry : string * string)
  : Eff.M World Db :=
  let '(url, desc) := entry in
  db <- execute h (InsertAdlist url desc) db ;;
  db <- execute h (UpdateAdlist desc url) db ;;
  execute h (InsertLink url) db.

(** [edit_db_on_host]; nothing reaches the file before [conn.commit()],
    and [conn.close()] drops what was not committed. *)
Definition edit_db_on_host (h : Host) (db_path : string) : Eff.M World unit :=
  w <- Eff.get ;;
  match files w !! db_path with
  | None => Eff.raise (Eff.SystemExit (Eff.Text ("DB file not found at " +:+ db_path)))
  | Some db =>
      Eff.try_finally
        (db <- execute h SelectTables db ;;
         let miss := missing_tables db in
         match miss with
         | _ :: _ =>
             Eff.raise
               (Eff.SystemExit
                  (Eff.Text ("Unexpected DB schema; missing tables: " +:+
                             Py.join ", " (Py.sorted miss))))
         | [] =>
             db <- execute h InsertGroup db ;;
             db <- execute h UpdateGroup db ;;
             db <- Eff.for_fold ADLISTS db (upsert h) ;;
             emit Commit ;;;
             Eff.modify (λ w, {| gravity := gravity w;
                                 files := <[db_path := db]> (files w);
                                 log := log w |})
         end)
        (emit Close)
  end.

Definition gravity_update (h : Host) (container : string) : Eff.M World unit :=
  run h ["docker"; "exec"; "-i"; container; "pihole"; "-g"].

Definition list_argv (container : string) : list string :=
  ["docker"; "exec"; "-i"; container; "bash"; "-lc";
   "sqlite3 -header -column " +:+ DB_PATH_IN_CONTAINER +:+ " " +:+ dq +:+
   "SELECT id, enabled, address, comment FROM adlist ORDER BY id;" +:+ dq].

(** [ORDER BY id] *)
Definition by_id (a b : adlist_row) : Prop := a_id a ≤ a_id b.

#[global] Instance by_id_dec : RelDecision by_id.
Proof. intros a b. unfold by_id. apply _. Defined.

Definition listed (a : adlist_row) : Z * Z * string * string :=
  (a_id a, a_enabled a, a_address a, a_comment a).

Definition list_current_adlists (h : Host) (container : string)
  : Eff.M World unit :=
  has <- container_has_sqlite3 h container ;;
  if has then
    run h (list_argv container) ;;;
    print (Listing (stdout_of h (list_argv container)))
  else
    with_tempdir h
      (λ td,
         let local_db := PosixPath.os_join td "gravity.db" in
         docker_cp_out h container local_db ;;;
         w <- Eff.get ;;
         let db := default {| group_t := None; adlist_t := None;
                              adlist_by_group_t := None |}
                     (files w !! local_db) in
         Eff.try_finally
           (db <- execute h SelectAdlists db ;;
            print (ListingRows
                     (List.map listed
                        (merge_sort by_id
                           (default [] (adlist_t db))))))
           (emit Close)).

Definition whole_sql : string :=
  foldl (λ sql entry, sql +:+ nl +:+ upsert_adlist_sql entry.1 entry.2)
    ensure_default_group_sql ADLISTS.

(** [main], after [argparse] *)
Definition main (h : Host) (args : Args) : Eff.M World unit :=
  container <- match container args with
               | Some (String a c) => Eff.ret (String a c)
               | _ => detect_container_name h
               end ;;
  if list_only args then
    list_current_adlists h container ;;;
    Eff.raise (Eff.SystemExit (Eff.Code 0))
  else
    print (TargetContainer container) ;;;
    print Ensuring ;;;
    has <- container_has_sqlite3 h container ;;
    (if has then
       let sql := whole_sql in
       if dry_run args then print (WouldRunSql sql)
       else exec_sql_in_container h container sql
     else
       with_tempdir h
         (λ td,
            let local_db := PosixPath.os_join td "gravity.db" in
            docker_cp_out h container local_db ;;;
            if dry_run args then print (WouldEdit local_db)
            else
              edit_db_on_host h local_db ;;;
              docker_cp_in h local_db container)) ;;;
    if dry_run args then
      print SkippingGravity ;;;
      Eff.raise (Eff.SystemExit (Eff.Code 0))
    else
      print RebuildingGravity ;;;
      gravity_update h container ;;;
      print DoneCurrent ;;;
      list_current_adlists h container.

End Provisioner.

(** ** The backup image inspector, [scripts/inspect_backup_image.py] *)

Module Inspector.

Record Args := {
  image : option string;
  auto : bool;
  expect : list string;
}.

(** What the host answers: the exit status of a subprocess and what
    it does to the file system, the lines [docker images] prints, the
    text [docker create] prints, the directory [mkdtemp] makes. *)
Record Host := {
  returncode : list string → Z;
  effect : list string → gset string → gset string;
  images_out : list string;
  create_out : string;
  tmp : string;
}.

Inductive message :=
| ErrNoImage
| UsingImage (image : string)
| ErrNoBundle
| ErrCreate (image : string)
| AvailableImages (imgs : list string)
| NoImagesHints
| ErrCommandFailed (e : Eff.exn).

Inductive event :=
| Run (argv : list string)
| Mkdtemp (dir : string)
| Rmtree (dir : string)
| Stdout (m : message)
| Stderr (m : message).

(** The paths that exist, what the run did so far, and the local
    variable [cid] of [main], which its [finally] clause reads. *)
Record World := {
  fs : gset string;
  log : list event;
  cid : option string;
}.

Definition emit (e : event) : Eff.M World unit :=
  Eff.modify (λ w, {| fs := fs w; log := log w ++ [e]; cid := cid w |}).

Definition print (m : message) : Eff.M World unit := emit (Stdout m).
Definition eprint (m : message) : Eff.M World unit := emit (Stderr m).

Definition spawn (h : Host) (argv : list string) : Eff.M World Z :=
  emit (Run argv) ;;;
  Eff.modify (λ w, {| fs := effect h argv (fs w); log := log w; cid := cid w |}) ;;;
  Eff.ret (returncode h argv).

(** [run(cmd)]: [subprocess.run(cmd, check=True, text=True,
    capture_output=True)] *)
Definition run (h : Host) (argv : list string) : Eff.M World unit :=
  rc <- spawn h argv ;;
  if rc =? 0 then Eff.ret tt else Eff.raise (Eff.CalledProcessError rc argv).

Definition images_argv : list string :=
  ["docker"; "images"; "--format"; "{{.Repository}}:{{.Tag}}"].

Definition list_backup_images (h : Host) : Eff.M World (list string) :=
  Eff.try_except
    (run h images_argv ;;;
     Eff.ret (Py.sorted
                (List.filter (λ i, Py.startswith i "homelab-backup:")
                   (images_out h))))
    (λ e, match e with
          | Eff.CalledProcessError _ _ => Eff.ret []
          | _ => Eff.raise e
          end).

Definition autodetect_image (h : Host) : Eff.M World (option string) :=
  imgs <- list_backup_images h ;;
  match imgs with
  | [] => Eff.ret None
  | _ => Eff.ret (Py.last_item imgs)
  end.

Definition create_argv (image : string) : list string :=
  ["docker"; "create"; image].

(** [create_container]; the [.strip()] of the printed id is left to
    the host, [create_out] is the stripped text. *)
Definition create_container (h : Host) (image : string) : Eff.M World string :=
  run h (create_argv image) ;;; Eff.ret (create_out h).

(** [rm_container]: [check=False], the status is ignored. *)
Definition rm_container (h : Host) (c : string) : Eff.M World unit :=
  spawn h ["docker"; "rm"; "-f"; c] ;;; Eff.ret tt.

Definition docker_cp (h : Host) (c src dst : string) : Eff.M World unit :=
  run h ["docker"; "cp"; c +:+ ":" +:+ src; dst].

Definition bind_name (src : string) : string :=
  Py.replace "/" "__" (Py.lstrip "/" src) +:+ ".tar.gz".

(** A Python value as far as the [except] clause looks at one. *)
Inductive value :=
| VInt (n : Z)
| VStrs (l : list string).

(** [e.args] of a [CalledProcessError]: [subprocess.run] raises
    [CalledProcessError(retcode, process.args, output=..., stderr=...)],
    and [BaseException] keeps the positional arguments, so [e.args] is
    the tuple [(retcode, cmd)]. *)
Definition exn_args (returncode : Z) (cmd : list string) : list value :=
  [VInt returncode; VStrs cmd].

(** [sep.join(v)]: a [TypeError] unless [v] is iterable. *)
Definition str_join (sep : string) (v : value) : Eff.M World string :=
  match v with
  | VStrs l => Eff.ret (Py.join sep l)
  | VInt _ => Eff.raise (Eff.TypeError "can only join an iterable")
  end.

(** The clause [except subprocess.CalledProcessError as e].  [e.args]
    is a tuple, so the [isinstance] test holds and [cmd_str] is
    [" ".join(e.args[0])]. *)
Definition on_called_process_error (h : Host) (image : string)
    (returncode : Z) (cmd : list string) : Eff.M World unit :=
  cmd_str <- match exn_args returncode cmd with
             | a0 :: _ => str_join " " a0
             | [] => Eff.raise (Eff.TypeError "tuple index out of range")
             end ;;
  if Py.contains cmd_str "docker create" || Py.contains cmd_str "create" then
    imgs <- list_backup_images h ;;
    eprint (ErrCreate image) ;;;
    (match imgs with
     | [] => eprint NoImagesHints
     | _ => eprint (AvailableImages imgs)
     end) ;;;
    Eff.raise (Eff.SystemExit (Eff.Code 1))
  else
    eprint (ErrCommandFailed (Eff.CalledProcessError returncode cmd)) ;;;
    Eff.raise (Eff.SystemExit (Eff.Code 1)).

Definition set_cid (c : string) : Eff.M World unit :=
  Eff.modify (λ w, {| fs := fs w; log := log w; cid := Some c |}).

Section main.

(** The structural and per-container report of the bundle
    extracted under the given directory (everything [main] prints
    between the check for [/bundle] and ["== Done =="]); it reads
    files and prints, and runs no subprocess. *)
Variable report : string → Eff.M World unit.

Definition inspect (h : Host) (image : string) : Eff.M World unit :=
  let bundle := PosixPath.join (tmp h) "bundle" in
  emit (Mkdtemp (tmp h)) ;;;
  Eff.modify (λ w, {| fs := {[PosixPath.norm (tmp h)]} ∪ fs w;
                      log := log w; cid := None |}) ;;;
  Eff.try_finally
    (Eff.try_except
       (print (UsingImage image) ;;;
        c <- create_container h image ;;
        set_cid c ;;;
        docker_cp h c "/bundle" (PosixPath.norm (tmp h)) ;;;
        w <- Eff.get ;;
        if bool_decide (bundle ∈ fs w) then report bundle
        else eprint ErrNoBundle ;;; Eff.raise (Eff.SystemExit (Eff.Code 3)))
       (λ e, match e with
             | Eff.CalledProcessError rc cmd =>
                 on_called_process_error h image rc cmd
             | _ => Eff.raise e
             end))
    (Eff.try_finally
       (w <- Eff.get ;;
        match cid w with
        | Some (String a c) => rm_container h (String a c)
        | _ => Eff.ret tt
        end)
       (emit (Rmtree (tmp h)) ;;;
        Eff.modify
          (λ w, {| fs := filter
                           (λ p, ¬ (p = PosixPath.norm (tmp h) ∨
                                    Py.startswith p
                                      (PosixPath.os_join (PosixPath.norm (tmp h)) "")
                                    = true))
                           (fs w);
                   log := log w; cid := cid w |}))).

(** [main], after [argparse] ([--image] and [--auto] exclude each
    other). *)
Definition main (h : Host) (args : Args) : Eff.M World unit :=
  let given := Py.or_else (image args) "" in
  resolved <-
    (if auto args || String.eqb given "" then
       found <- autodetect_image h ;;
       if auto args then Eff.ret (Py.or_else found "")
       else Eff.ret (Py.or_else found given)
     else Eff.ret given) ;;
  if String.eqb resolved "" then
    eprint ErrNoImage ;;; Eff.raise (Eff.SystemExit (Eff.Code 2))
  else inspect h resolved.

End main.

End Inspector.

(** ** Notions the properties are stated with *)

Module Notions.

(** *** What a computation adds to the log *)

Section traces.

Context {S E : Type} (log : S → list E).

(** [m] only appends to the log, every event it appends satisfies
    [P], and a value it returns satisfies [Q]. *)
Definition emits {A} (P : E → Prop) (Q : A → Prop) (m : Eff.M S A) : Prop :=
  ∀ s, ∃ evs, log (m s).2 = log s ++ evs ∧ Forall P evs ∧
              ∀ a, (m s).1 = Eff.Ok a → Q a.

End traces.

(** No underscore of [s] stands right before an underscore or a
    slash. *)
Fixpoint underscores_apart (s : string) : bool :=
  match s with
  | EmptyString => true
  | String a s' =>
      (if Ascii.eqb a "_" then
         match s' with
         | EmptyString => true
         | String b _ => negb (Ascii.eqb b "_") && negb (Ascii.eqb b "/")
         end
       else true)
      && underscores_apart s'
  end.

(** An absolute path with a single leading slash whose underscores
    stand apart: ["/etc/pihole"], ["/etc/caddy_config"],
    ["/home/u/data"]. *)
Definition plain_path (s : string) : bool :=
  match s with
  | EmptyString => false
  | String a r =>
      Ascii.eqb a "/" && negb (Py.startswith r "/") && underscores_apart r
  end.

(** Reads a flat name back: a pair of underscores is a slash. *)
Fixpoint unreplace (s : string) : string :=
  match s with
  | EmptyString => EmptyString
  | String a s' =>
      if Ascii.eqb a "_" then
        match s' with
        | EmptyString => String a EmptyString
        | String b s'' =>
            if Ascii.eqb b "_" then String "/" (unreplace s'')
            else String a (unreplace s')
        end
      else String a (unreplace s')
  end.

(** The archive of a candidate in [bind_dir], and the two commands
    that make it. *)
Definition arc_of (b : Patcher.bind_mount) : string :=
  Patcher.safe_archive_name_from_src (Patcher.src_of b).

Definition archive_path_of (bind_dir : string) (b : Patcher.bind_mount) : string :=
  PosixPath.join bind_dir (arc_of b).

Definition tar_of (bind_dir : string) (b : Patcher.bind_mount) : list string :=
  Patcher.tar_argv (archive_path_of bind_dir b) (Py.lstrip "/" (Patcher.src_of b)).

Definition chown_of (h : Patcher.Host) (bind_dir : string)
    (b : Patcher.bind_mount) : list string :=
  Patcher.chown_argv h (archive_path_of bind_dir b).

Definition tar_ok (h : Patcher.Host) (bind_dir : string)
    (b : Patcher.bind_mount) : bool :=
  Patcher.returncode h (tar_of bind_dir b) =? 0.

Definition chown_ok (h : Patcher.Host) (bind_dir : string)
    (b : Patcher.bind_mount) : bool :=
  Patcher.returncode h (chown_of h bind_dir b) =? 0.

Definition failed (h : Patcher.Host) (argv : list string) : Eff.exn :=
  Eff.CalledProcessError (Patcher.returncode h argv) argv.

(** What archiving one candidate leaves in the log. *)
Definition archiving_trace (h : Patcher.Host) (bind_dir : string)
    (b : Patcher.bind_mount) : list Patcher.event :=
  [Patcher.Stdout
     (Patcher.Archiving (Patcher.src_of b) b.1.1 (archive_path_of bind_dir b));
   Patcher.Run (tar_of bind_dir b)] ++
  (if tar_ok h bind_dir b then
     Patcher.Run (chown_of h bind_dir b) ::
     (if chown_ok h bind_dir b then []
      else [Patcher.Stderr
              (Patcher.ErrTarFailed (Patcher.src_of b)
                 (failed h (chown_of h bind_dir b)))])
   else [Patcher.Stderr
           (Patcher.ErrTarFailed (Patcher.src_of b)
              (failed h (tar_of bind_dir b)))]).

(** The archives [ensure_bind_archives] finds in [bind_dir], once the
    directory is there. *)
Definition found_in (bind_dir : string) (w : Patcher.World) : gset string :=
  Patcher.archives_in
    (list_to_set (PosixPath.lineage bind_dir) ∪ Patcher.fs w)
    (PosixPath.norm bind_dir).

Definition not_in (existing : gset string) (b : Patcher.bind_mount) : bool :=
  bool_decide (arc_of b ∉ existing).

(** A command that changes the host or a container. *)
Definition patcher_mutates (e : Patcher.event) : bool :=
  match e with
  | Patcher.Mkdir _ => true
  | Patcher.Run ("docker" :: "inspect" :: _) => false
  | Patcher.Run _ => true
  | _ => false
  end.

(** The allow-list [main] composes. *)
Definition allowed_of (h : Patcher.Host) (args : Patcher.Args) : list string :=
  Py.dedup_seen ∅ (Patcher.DEFAULT_PREFIXES (Patcher.home h) ++
                   Patcher.extra_prefix args).

(** What a dry run of the patcher may do: inspect containers, make
    sure of a [bind-mounts] directory, run the rebuild script when
    asked to, and print. *)
Definition dry_event (h : Patcher.Host) (args : Patcher.Args)
    (e : Patcher.event) : Prop :=
  match e with
  | Patcher.Run argv =>
      (∃ c, argv = ["docker"; "inspect"; c]) ∨
      (Patcher.rebuild_image args = true ∧
       argv = [PosixPath.join (Patcher.home h) "make-backup-image.sh"])
  | Patcher.Mkdir d => ∃ root, d = PosixPath.join root "bind-mounts"
  | _ => True
  end.

(** An event that, if it is a [tar] command, archives an allow-listed
    source into the [bind-mounts] directory of a backup. *)
Definition safe_event (h : Patcher.Host) (args : Patcher.Args)
    (e : Patcher.event) : Prop :=
  ∀ path rel, e = Patcher.Run (Patcher.tar_argv path rel) →
    ∃ root src,
      rel = Py.lstrip "/" src ∧
      path = PosixPath.join (PosixPath.join root "bind-mounts")
               (Patcher.safe_archive_name_from_src src) ∧
      Patcher.should_include_path src (allowed_of h args) = true.

(** The backup directory [main] resolves: the one given, else the
    latest one. *)
Definition resolved_backup (h : Patcher.Host) (args : Patcher.Args)
  : option string :=
  match Patcher.backup args with
  | Some (String a p) => Some (PosixPath.norm (String a p))
  | _ => Patcher.latest_backup h
  end.

(** A host on which [sudo -v] is refused. *)
Definition no_sudo : Patcher.Host :=
  {| Patcher.home := "/home/u";
     Patcher.owner := "1000:1000";
     Patcher.returncode :=
       λ argv, match argv with
               | "sudo" :: _ => 1
               | _ => 0
               end;
     Patcher.effect := λ _ files, files;
     Patcher.inspect_json := λ _, [];
     Patcher.latest_backup := Some "/home/u/homelab-backups/2025-08-12_224310" |}.

Definition real_run_args : Patcher.Args :=
  {| Patcher.backup := None;
     Patcher.containers := Patcher.DEFAULT_EXPECT;
     Patcher.extra_prefix := [];
     Patcher.dry_run := false;
     Patcher.rebuild_image := false |}.

(** A host with no backup at all. *)
Definition no_backup_host : Patcher.Host :=
  {| Patcher.home := "/home/u";
     Patcher.owner := "1000:1000";
     Patcher.returncode := λ _, 0;
     Patcher.effect := λ _ files, files;
     Patcher.inspect_json := λ _, [];
     Patcher.latest_backup := None |}.

(** What [docker_inspect] returns for a container. *)
Definition inspected (h : Patcher.Host) (c : string) : option Patcher.Inspect :=
  if Patcher.returncode h ["docker"; "inspect"; c] =? 0
  then head (Patcher.inspect_json h c) else None.

(** An entry of the gathered mounts whose volume mounts and bind
    mounts are of their type. *)
Definition well_typed (x : string * Patcher.mounts_info) : Prop :=
  Forall (λ m, Patcher.mType m = Some "volume") x.2.1.2 ∧
  Forall (λ m, Patcher.mType m = Some "bind") x.2.2.

(** A host on which [tar] works and [chown] does not. *)
Definition chown_fails : Patcher.Host :=
  {| Patcher.home := "/home/u";
     Patcher.owner := "1000:1000";
     Patcher.returncode :=
       λ argv, match argv with
               | "sudo" :: "chown" :: _ => 1
               | _ => 0
               end;
     Patcher.effect := λ _ files, files;
     Patcher.inspect_json := λ _, [];
     Patcher.latest_backup := None |}.

(** A host with a backup taken by the backup script, which has not
    made a [bind-mounts] directory, and with no container running. *)
Definition fresh_backup : string := "/home/u/homelab-backups/2025-08-12_224310".

Definition quiet_host : Patcher.Host :=
  {| Patcher.home := "/home/u";
     Patcher.owner := "1000:1000";
     Patcher.returncode :=
       λ argv, match argv with
               | "docker" :: _ => 1
               | _ => 0
               end;
     Patcher.effect := λ _ files, files;
     Patcher.inspect_json := λ _, [];
     Patcher.latest_backup := Some fresh_backup |}.

Definition quiet_world : Patcher.World :=
  {| Patcher.fs := {["/"; "/etc"; "/etc/pihole"; "/home"; "/home/u";
                     "/home/u/make-backup-image.sh"; "/home/u/homelab-backups";
                     fresh_backup]};
     Patcher.log := [] |}.

Definition dry_run_args (rebuild : bool) : Patcher.Args :=
  {| Patcher.backup := None;
     Patcher.containers := Patcher.DEFAULT_EXPECT;
     Patcher.extra_prefix := [];
     Patcher.dry_run := true;
     Patcher.rebuild_image := rebuild |}.

(** A host on which three containers run, none of them named
    [pihole]. *)
Definition three_containers : Provisioner.Host :=
  {| Provisioner.returncode := λ _, 0;
     Provisioner.exec_effect := λ _ db, db;
     Provisioner.ps_out := ["caddy"; "My-PiHole-1"; "pihole2"];
     Provisioner.stdout_of := λ _, "";
     Provisioner.tmpdir := λ _, "/tmp/tmpa1b2c3";
     Provisioner.clock := λ _, 1755000000 |}.

Definition idle : Provisioner.World :=
  {| Provisioner.gravity := None; Provisioner.files := ∅; Provisioner.log := [] |}.

(** A host with two backup images on which [docker create] fails. *)
Definition create_fails : Inspector.Host :=
  {| Inspector.returncode :=
       λ argv, match argv with
               | "docker" :: "create" :: _ => 1
               | _ => 0
               end;
     Inspector.effect := λ _ files, files;
     Inspector.images_out :=
       ["homelab-backup:2025-08-12_201735"; "caddy:2"; "homelab-backup:2025-08-13_090000"];
     Inspector.create_out := "";
     Inspector.tmp := "/tmp/bundle-inspect-x1" |}.

Definition before_inspect : Inspector.World :=
  {| Inspector.fs := {["/"; "/tmp"]}; Inspector.log := []; Inspector.cid := None |}.

Definition is_backup_image (i : string) : bool := Py.startswith i "homelab-backup:".

(** A database copied out of the container that has no [group]
    table. *)
Definition no_group_db : Provisioner.Db :=
  {| Provisioner.group_t := None;
     Provisioner.adlist_t := Some [];
     Provisioner.adlist_by_group_t := Some [] |}.

Definition staged (db : Provisioner.Db) : Provisioner.World :=
  {| Provisioner.gravity := Some db;
     Provisioner.files := {["/tmp/tmpa1b2c3/gravity.db" := db]};
     Provisioner.log := [] |}.

(** A database with the three tables and no row. *)
Definition empty_db : Provisioner.Db :=
  {| Provisioner.group_t := Some [];
     Provisioner.adlist_t := Some [];
     Provisioner.adlist_by_group_t := Some [] |}.

(** A later run, on a host whose clock shows a later time. *)
Definition next_day : Provisioner.Host :=
  {| Provisioner.returncode := λ _, 0;
     Provisioner.exec_effect := λ _ db, db;
     Provisioner.ps_out := ["pihole"];
     Provisioner.stdout_of := λ _, "";
     Provisioner.tmpdir := λ _, "/tmp/tmpa1b2c3";
     Provisioner.clock := λ _, 1755086400 |}.

(** An event of a provisioner run that changes nothing outside the
    temporary directory: no statement is executed on a database, and
    a subprocess is the listing of the containers, the test for
    [sqlite3] in the container [c], or the copy of the database out
    of it. *)
Definition read_only (c : string) (e : Provisioner.event) : Prop :=
  match e with
  | Provisioner.Run argv =>
      argv = Provisioner.ps_argv ∨
      argv = Provisioner.has_sqlite3_argv c ∨
      ∃ td, argv = Provisioner.cp_out_argv c (PosixPath.os_join td "gravity.db")
  | Provisioner.Sql _ | Provisioner.Commit => False
  | _ => True
  end.

(** *** The gravity database with its three tables present *)

Record Tables := {
  groups : list Provisioner.group_row;
  adlists : list Provisioner.adlist_row;
  links : list (Z * Z);
}.

Definition pack (T : Tables) : Provisioner.Db :=
  {| Provisioner.group_t := Some (groups T);
     Provisioner.adlist_t := Some (adlists T);
     Provisioner.adlist_by_group_t := Some (links T) |}.

(** What a statement makes of the three tables. *)
Definition step (now : Z) (st : Provisioner.statement) (T : Tables) : Tables :=
  match st with
  | Provisioner.InsertGroup =>
      {| groups := Provisioner.insert_group (groups T);
         adlists := adlists T; links := links T |}
  | Provisioner.UpdateGroup =>
      {| groups := Provisioner.update_group (groups T);
         adlists := adlists T; links := links T |}
  | Provisioner.InsertAdlist url desc =>
      {| groups := groups T;
         adlists := Provisioner.insert_adlist now url desc (adlists T);
         links := links T |}
  | Provisioner.UpdateAdlist desc url =>
      {| groups := groups T;
         adlists := Provisioner.update_adlist now desc url (adlists T);
         links := links T |}
  | Provisioner.InsertLink url =>
      {| groups := groups T; adlists := adlists T;
         links := Provisioner.insert_link url (adlists T) (links T) |}
  | _ => T
  end.

(** The three statements for one adlist, the first of them being the
    [k]-th event of the run; [t n] is the time after [n] events. *)
Definition upsert_at (t : nat → Z) (k : nat) (T : Tables)
    (entry : string * string) : Tables :=
  step (t (k + 2)%nat) (Provisioner.InsertLink entry.1)
    (step (t (k + 1)%nat) (Provisioner.UpdateAdlist entry.2 entry.1)
       (step (t k) (Provisioner.InsertAdlist entry.1 entry.2) T)).

Fixpoint upserts (t : nat → Z) (k : nat) (l : list (string * string))
    (T : Tables) : Tables :=
  match l with
  | [] => T
  | entry :: l' => upserts t (k + 3)%nat l' (upsert_at t k T entry)
  end.

Definition upsert_stmts (entry : string * string) : list Provisioner.statement :=
  [Provisioner.InsertAdlist entry.1 entry.2;
   Provisioner.UpdateAdlist entry.2 entry.1;
   Provisioner.InsertLink entry.1].

(** All the edits of one run whose first event is the [k]-th. *)
Definition edits (t : nat → Z) (k : nat) (T : Tables) : Tables :=
  upserts t (k + 3)%nat Provisioner.ADLISTS
    (step (t (k + 2)%nat) Provisioner.UpdateGroup
       (step (t (k + 1)%nat) Provisioner.InsertGroup T)).

Definition edit_events : list Provisioner.event :=
  List.map Provisioner.Sql
    (Provisioner.SelectTables :: Provisioner.InsertGroup ::
     Provisioner.UpdateGroup :: flat_map upsert_stmts Provisioner.ADLISTS) ++
  [Provisioner.Commit; Provisioner.Close].

(** The world after some more events. *)
Definition logged (w : Provisioner.World) (evs : list Provisioner.event)
  : Provisioner.World :=
  {| Provisioner.gravity := Provisioner.gravity w;
     Provisioner.files := Provisioner.files w;
     Provisioner.log := Provisioner.log w ++ evs |}.

(** A statement that writes. *)
Definition writes (e : Provisioner.event) : bool :=
  match e with
  | Provisioner.Sql Provisioner.SelectTables
  | Provisioner.Sql Provisioner.SelectAdlists => false
  | Provisioner.Sql _ | Provisioner.Commit => true
  | _ => false
  end.

(** The adlist [url] is in place: there is a row for it, and every row
    for it is enabled, carries the label and is linked to the default
    group. *)
Definition managed (url desc : string) (T : Tables) : Prop :=
  (∃ a, a ∈ adlists T ∧ Provisioner.a_address a = url) ∧
  ∀ a, a ∈ adlists T → Provisioner.a_address a = url →
       Provisioner.a_enabled a = 1 ∧ Provisioner.a_comment a = desc ∧
       (Provisioner.a_id a, Provisioner.DEFAULT_GROUP_ID) ∈ links T.

(** The default group is there and enabled. *)
Definition group_ok (T : Tables) : Prop :=
  (∃ g, g ∈ groups T ∧ Provisioner.g_id g = Provisioner.DEFAULT_GROUP_ID) ∧
  ∀ g, g ∈ groups T → Provisioner.g_id g = Provisioner.DEFAULT_GROUP_ID →
       Provisioner.g_enabled g = 1.

(** A row, and a database, with the time of the last modification
    left out. *)
Definition forget_row (a : Provisioner.adlist_row) : Provisioner.adlist_row :=
  {| Provisioner.a_id := Provisioner.a_id a;
     Provisioner.a_address := Provisioner.a_address a;
     Provisioner.a_enabled := Provisioner.a_enabled a;
     Provisioner.a_date_added := Provisioner.a_date_added a;
     Provisioner.a_date_modified := 0;
     Provisioner.a_comment := Provisioner.a_comment a |}.

Definition forget (T : Tables) : Tables :=
  {| groups := groups T; adlists := List.map forget_row (adlists T);
     links := links T |}.

Definition forget_modified (db : Provisioner.Db) : Provisioner.Db :=
  {| Provisioner.group_t := Provisioner.group_t db;
     Provisioner.adlist_t := List.map forget_row <$> Provisioner.adlist_t db;
     Provisioner.adlist_by_group_t := Provisioner.adlist_by_group_t db |}.

(** An image that can be created but holds no [/bundle]: every
    command succeeds and none changes the file system. *)
Definition empty_image : Inspector.Host :=
  {| Inspector.returncode := λ _, 0;
     Inspector.effect := λ _ files, files;
     Inspector.images_out := ["homelab-backup:2025-08-13_090000"];
     Inspector.create_out := "3f2a9c";
     Inspector.tmp := "/tmp/bundle-inspect-x1" |}.

(** [p] is the inspector's temporary directory or lies under it. *)
Definition in_tmp (h : Inspector.Host) (p : string) : Prop :=
  p = PosixPath.norm (Inspector.tmp h) ∨
  Py.startswith p (PosixPath.os_join (PosixPath.norm (Inspector.tmp h)) "") = true.

(** The command of [rm_container]. *)
Definition rm_of (c : string) : Inspector.event :=
  Inspector.Run ["docker"; "rm"; "-f"; c].

(** The command of [docker_cp(cid, "/bundle", str(tmp))]. *)
Definition cp_bundle_argv (h : Inspector.Host) : list string :=
  ["docker"; "cp"; Inspector.create_out h +:+ ":" +:+ "/bundle";
   PosixPath.norm (Inspector.tmp h)].

(** A host whose Pi-hole container has no [sqlite3]: the test for it
    fails, every other command succeeds, and no command changes the
    database of the container by itself. *)
Definition no_sqlite3 : Provisioner.Host :=
  {| Provisioner.returncode :=
       λ argv, if bool_decide (argv = Provisioner.has_sqlite3_argv "pihole")
               then 1 else 0;
     Provisioner.exec_effect := λ _ db, db;
     Provisioner.ps_out := ["pihole"];
     Provisioner.stdout_of := λ _, "";
     Provisioner.tmpdir := λ _, "/tmp/tmpa1b2c3";
     Provisioner.clock := λ _, 1755000000 |}.

(** A host whose container has [sqlite3] and refuses the SQL. *)
Definition sql_fails : Provisioner.Host :=
  {| Provisioner.returncode :=
       λ argv, if bool_decide (argv = Provisioner.has_sqlite3_argv "pihole")
               then 0 else 1;
     Provisioner.exec_effect := λ _ db, db;
     Provisioner.ps_out := ["pihole"];
     Provisioner.stdout_of := λ _, "";
     Provisioner.tmpdir := λ _, "/tmp/tmpa1b2c3";
     Provisioner.clock := λ _, 1755000000 |}.

(** The arguments of a full run on the container [name]. *)
Definition full_run (name : string) : Provisioner.Args :=
  {| Provisioner.container := Some name;
     Provisioner.dry_run := false;
     Provisioner.list_only := false |}.

(** The world before a run, the container holding the database [db]. *)
Definition holding (db : Provisioner.Db) : Provisioner.World :=
  {| Provisioner.gravity := Some db;
     Provisioner.files := ∅;
     Provisioner.log := [] |}.

(** An event of a run that only lists: a subprocess is the listing of
    the containers, the test for [sqlite3], the query in the container
    [c] or the copy of the database out of it, and the only statement
    executed on a database is the query of the adlists. *)
Definition listing_event (c : string) (e : Provisioner.event) : Prop :=
  match e with
  | Provisioner.Run argv =>
      argv = Provisioner.ps_argv ∨
      argv = Provisioner.has_sqlite3_argv c ∨
      argv = Provisioner.list_argv c ∨
      ∃ td, argv = Provisioner.cp_out_argv c (PosixPath.os_join td "gravity.db")
  | Provisioner.Sql st => st = Provisioner.SelectAdlists
  | Provisioner.Commit => False
  | _ => True
  end.

End Notions.

(** * Properties *)

(** ** Strings *)

Section py_strings.

Lemma append_cons a (s t : string) : String a s +:+ t = String a (s +:+ t).
Proof. reflexivity. Qed.

Lemma append_nil_l (s : string) : "" +:+ s = s.
Proof. reflexivity. Qed.

Lemma append_assoc (s t u : string) : (s +:+ t) +:+ u = s +:+ (t +:+ u).
Proof. induction s as [|a s IH]; [done|]. by rewrite !append_cons, IH. Qed.

Lemma length_append (s t : string) :
  String.length (s +:+ t) = (String.length s + String.length t)%nat.
Proof. induction s as [|a s IH]; [done|]. rewrite append_cons. simpl. lia. Qed.

Lemma append_inv_tail (s t u : string) : s +:+ u = t +:+ u → s = t.
Proof.
  intros H.
  assert (Hlen : String.length s = String.length t).
  { apply (f_equal String.length) in H.
    rewrite !length_append in H. lia. }
  revert t H Hlen. induction s as [|a s IH]; intros [|b t] H Hlen; try done.
  rewrite !append_cons in H. simplify_eq. f_equal. apply IH; [done|].
  simpl in Hlen. lia.
Qed.

Lemma startswith_spec (s p : string) :
  Py.startswith s p = true ↔ ∃ r, s = p +:+ r.
Proof.
  revert s. induction p as [|b p IH]; intros s; simpl.
  - split; [intros _; by exists s | done].
  - destruct s as [|a s].
    + split; [done | intros [r Hr]; discriminate Hr].
    + rewrite andb_true_iff, Ascii.eqb_eq, IH. split.
      * intros [-> [r ->]]. by exists r.
      * intros [r Hr]. rewrite append_cons in Hr. injection Hr as -> ->. eauto.
Qed.

End py_strings.

(** ** The patcher's inclusion test *)

Section inclusion.

Lemma under_prefix_spec (src p : string) :
  Patcher.under_prefix src p = true ↔
  PosixPath.norm src = PosixPath.norm p ∨
  ∃ rest, PosixPath.norm src = PosixPath.norm p +:+ "/" +:+ rest.
Proof.
  unfold Patcher.under_prefix.
  rewrite orb_true_iff, String.eqb_eq, startswith_spec.
  by setoid_rewrite append_assoc.
Qed.

(** An already normalised path is printed back unchanged, so on such
    inputs the test compares the strings as they are given. *)
Lemma should_include_path_normalised (src : string) (prefixes : list string) :
  PosixPath.norm src = src →
  Forall (λ p, PosixPath.norm p = p) prefixes →
  Patcher.should_include_path src prefixes = true ↔
  ∃ p, p ∈ prefixes ∧ (src = p ∨ Py.startswith src (p +:+ "/") = true).
Proof.
  intros Hs. induction 1 as [|p ps Hp Hps IH]; simpl.
  - split; [done | intros (p & Hp & _); by apply elem_of_nil in Hp].
  - destruct (Patcher.under_prefix src p) eqn:E.
    + split; [intros _ | done]. exists p. split; [left|].
      apply under_prefix_spec in E. rewrite Hs, Hp in E.
      destruct E as [E | [r E]]; [by left | right].
      apply startswith_spec. exists r. by rewrite append_assoc.
    + rewrite IH. split.
      * intros (q & Hq & H). exists q. split; [by right | done].
      * intros (q & Hq & H). apply elem_of_cons in Hq as [-> | Hq]; [|eauto].
        exfalso. apply not_true_iff_false in E. apply E, under_prefix_spec.
        rewrite Hs, Hp. destruct H as [H | H]; [by left | right].
        apply startswith_spec in H as [r H]. exists r.
        by rewrite <- append_assoc.
Qed.

(** C1, as stated, fails: the test compares the paths after
    [str(Path(...))], so the prefix ["/etc/pihole/"] admits the path
    ["/etc/pihole"], which neither equals it nor starts with it. *)
Lemma should_include_path_raw_strings_counterexample :
  ¬ (∀ (S : string) (P : list string),
       Patcher.should_include_path S P = true ↔
       ∃ p, p ∈ P ∧ (S = p ∨ Py.startswith S (p +:+ "/") = true)).
Proof.
  intros H.
  destruct (H "/etc/pihole" ["/etc/pihole/"]) as [H1 _].
  destruct (H1 eq_refl) as (p & Hp & Hc).
  apply list_elem_of_singleton in Hp as ->.
  destruct Hc as [Hc | Hc]; discriminate Hc.
Qed.

(** C1 (amended): [should_include_path S P] is true iff, for some
    prefix [p] of the allow-list [P], the normalised [S] (what
    [str(Path(S))] prints) equals the normalised [p] or starts with the
    normalised [p] followed by the path separator.  A sibling that only
    shares a string prefix, ["/etc/pihole2"] against ["/etc/pihole"],
    is not included. *)
Theorem should_include_path_iff :
  (∀ (S : string) (P : list string),
     Patcher.should_include_path S P = true ↔
     ∃ p, p ∈ P ∧
          (PosixPath.norm S = PosixPath.norm p ∨
           ∃ rest, PosixPath.norm S = PosixPath.norm p +:+ "/" +:+ rest)) ∧
  Patcher.should_include_path "/etc/pihole2" ["/etc/pihole"] = false.
Proof.
  split; [|reflexivity].
  intros S P. induction P as [|p ps IH]; simpl.
  - split; [done | intros (p & Hp & _); by apply elem_of_nil in Hp].
  - destruct (Patcher.under_prefix S p) eqn:E.
    + split; [intros _ | done]. exists p. split; [left|].
      by apply under_prefix_spec.
    + rewrite IH. split.
      * intros (q & Hq & H). exists q. split; [by right | done].
      * intros (q & Hq & H). apply elem_of_cons in Hq as [-> | Hq]; [|eauto].
        apply under_prefix_spec in H. congruence.
Qed.

End inclusion.

(** ** Archive names *)

Section archive_names.

Lemma lstrip_no_slash (r : string) :
  Py.startswith r "/" = false → Py.lstrip "/" r = r.
Proof.
  destruct r as [|b r]; [done|]. simpl.
  rewrite andb_true_r. by intros ->.
Qed.

Lemma replace_slash_cons (a : ascii) (r : string) :
  Py.replace "/" "__" (String a r) =
  if Ascii.eqb a "/" then String "_" (String "_" (Py.replace "/" "__" r))
  else String a (Py.replace "/" "__" r).
Proof. reflexivity. Qed.

Lemma unreplace_replace (r : string) :
  Notions.underscores_apart r = true →
  Notions.unreplace (Py.replace "/" "__" r) = r.
Proof.
  induction r as [|a r IH]; [done|].
  intros [Ha Hr]%andb_true_iff. specialize (IH Hr).
  rewrite replace_slash_cons.
  destruct (Ascii.eqb a "/") eqn:Eslash.
  - apply Ascii.eqb_eq in Eslash as ->. simpl. by rewrite IH.
  - destruct (Ascii.eqb a "_") eqn:Eund.
    + destruct r as [|b r].
      * simpl. by rewrite Eund.
      * apply andb_true_iff in Ha as [Hb1 Hb2].
        apply negb_true_iff in Hb1, Hb2.
        rewrite replace_slash_cons, Hb2 in IH |- *.
        remember (String b (Py.replace "/" "__" r)) as enc eqn:Henc.
        cbn [Notions.unreplace]. rewrite Eund, Henc, Hb1, <- Henc.
        by rewrite IH.
    + cbn [Notions.unreplace]. by rewrite Eund, IH.
Qed.

Lemma archive_name_of_plain (s : string) :
  Notions.plain_path s = true →
  ∃ r, s = String "/" r ∧ Notions.underscores_apart r = true ∧
       Patcher.safe_archive_name_from_src s = Py.replace "/" "__" r +:+ ".tar.gz".
Proof.
  destruct s as [|a r]; [done|]. unfold Notions.plain_path.
  intros [[Ha Hr]%andb_true_iff Hu]%andb_true_iff.
  apply Ascii.eqb_eq in Ha as ->. apply negb_true_iff in Hr.
  exists r. split_and!; [done..|].
  unfold Patcher.safe_archive_name_from_src. simpl.
  by rewrite lstrip_no_slash.
Qed.

(** The open question of the design notes: the token ["__"] is not
    escaped, so two host paths can share an archive name. *)
Lemma safe_archive_name_collision :
  Patcher.safe_archive_name_from_src "/a/b" =
  Patcher.safe_archive_name_from_src "/a__b".
Proof. reflexivity. Qed.

(** C4: archive naming is a function of the source path alone; it maps
    ["/etc/pihole"] to ["etc__pihole.tar.gz"] and ["/home/u/data"] to
    ["home__u__data.tar.gz"]; and it is injective on the plain
    absolute paths (one leading slash, underscores standing apart),
    which the built-in allow-list and both example paths are. *)
Theorem safe_archive_name_injective :
  Patcher.safe_archive_name_from_src "/etc/pihole" = "etc__pihole.tar.gz" ∧
  Patcher.safe_archive_name_from_src "/home/u/data" = "home__u__data.tar.gz" ∧
  Forall (λ p, Notions.plain_path p = true)
    ["/home/u/data"; "/etc/pihole"; "/etc/dnsmasq.d"; "/etc/caddy";
     "/etc/caddy_config"] ∧
  (∀ s t : string,
     Notions.plain_path s = true → Notions.plain_path t = true →
     Patcher.safe_archive_name_from_src s = Patcher.safe_archive_name_from_src t →
     s = t).
Proof.
  split_and!; [reflexivity | reflexivity | by repeat constructor |].
  intros s t Hs Ht Heq.
  apply archive_name_of_plain in Hs as (r & -> & Hr & Es).
  apply archive_name_of_plain in Ht as (r' & -> & Hr' & Et).
  rewrite Es, Et in Heq. apply append_inv_tail in Heq.
  apply (f_equal Notions.unreplace) in Heq.
  rewrite !unreplace_replace in Heq by done. by rewrite Heq.
Qed.

Lemma safe_archive_name_injective_witness :
  Notions.plain_path "/etc/caddy_config" = true ∧
  Patcher.safe_archive_name_from_src "/etc/caddy_config" =
    "etc__caddy_config.tar.gz" ∧
  "/etc/caddy_config" = "/etc/caddy_config".
Proof.
  split_and!; [reflexivity | reflexivity |].
  exact (proj2 (proj2 (proj2 safe_archive_name_injective))
           "/etc/caddy_config" "/etc/caddy_config" eq_refl eq_refl eq_refl).
Defined.

End archive_names.

(** C9: the patcher names an archive exactly as the inspector expects
    it to be named: for every host path, [safe_archive_name_from_src]
    and [bind_name] return the same file name. *)
Theorem bind_name_agrees (src : string) :
  Patcher.safe_archive_name_from_src src = Inspector.bind_name src.
Proof. reflexivity. Qed.

(** ** The missing set *)

Section missing.

Import Patcher.

Lemma dedup_by_src_srcs (seen : gset string) (l : list bind_mount) (s : string) :
  s ∈ List.map src_of (dedup_by_src seen l) ↔ s ∈ List.map src_of l ∧ s ∉ seen.
Proof.
  revert seen. induction l as [|b l IH]; intros seen; simpl.
  - split; [by intros ?%elem_of_nil | by intros [?%elem_of_nil _]].
  - case_bool_decide as Hb; simpl.
    + rewrite IH, elem_of_cons. split; [intros [? ?]; auto|].
      intros [[-> | ?] ?]; [done | auto].
    + rewrite !elem_of_cons, IH. split.
      * intros [-> | [? Hn]]; [auto|]. split; [auto|].
        intros Hin. apply Hn, elem_of_union. by right.
      * intros [[-> | Hs] Hn]; [auto|].
        destruct (decide (s = src_of b)) as [-> | Hne]; [auto|].
        right. split; [done|].
        intros [Hin%elem_of_singleton | Hin]%elem_of_union; done.
Qed.

Lemma missing_of_names (existing : gset string) (l : list bind_mount) (arc : string) :
  arc ∈ List.map snd (missing_of existing l) ↔
  arc ∈ List.map (λ c, safe_archive_name_from_src (src_of c)) l ∧ arc ∉ existing.
Proof.
  induction l as [|b l IH]; simpl.
  - split; [by intros ?%elem_of_nil | by intros [?%elem_of_nil _]].
  - case_bool_decide as Hb; simpl.
    + rewrite !elem_of_cons, IH. split.
      * intros [-> | [? ?]]; auto.
      * intros [[-> | ?] ?]; auto.
    + rewrite IH, elem_of_cons. split; [intros [? ?]; auto|].
      intros [[-> | ?] Hn]; [|auto]. by destruct Hn.
Qed.

Lemma missing_of_fst (existing : gset string) (l : list bind_mount) :
  List.map fst (missing_of existing l) =
  List.filter
    (λ c, bool_decide (safe_archive_name_from_src (src_of c) ∉ existing)) l.
Proof.
  induction l as [|b l IH]; [done|]. simpl.
  case_bool_decide; simpl; by rewrite IH.
Qed.

(** C5: the missing set is the set difference between the archive
    names derived from the candidates and the names already present:
    an archive name is missing iff it is the name of some candidate
    and is not in the existing set.  This holds for the loop that
    computes [missing] from [filtered], and for [main]'s path from the
    candidates through the removal of repeated sources; from
    [{a.tar.gz}] and candidates named [a.tar.gz], [b.tar.gz] it
    yields exactly [b.tar.gz]. *)
Theorem missing_is_set_difference :
  (∀ (E : gset string) (C : list bind_mount) (arc : string),
     arc ∈ List.map snd (missing_of E C) ↔
     (∃ c, c ∈ C ∧ safe_archive_name_from_src (src_of c) = arc) ∧ arc ∉ E) ∧
  (∀ (E : gset string) (C : list bind_mount) (arc : string),
     arc ∈ List.map snd (missing_of E (dedup_by_src ∅ C)) ↔
     (∃ c, c ∈ C ∧ safe_archive_name_from_src (src_of c) = arc) ∧ arc ∉ E) ∧
  List.map snd
    (missing_of {["a.tar.gz"]}
       (dedup_by_src ∅ [("pihole", "/a", "/a"); ("caddy", "/b", "/data")]))
  = ["b.tar.gz"].
Proof.
  assert (Hnames : ∀ (C : list bind_mount) arc,
             arc ∈ List.map (λ c, safe_archive_name_from_src (src_of c)) C ↔
             ∃ c, c ∈ C ∧ safe_archive_name_from_src (src_of c) = arc).
  { intros C arc. rewrite list_elem_of_fmap.
    split; intros (c & ? & ?); exists c; by split. }
  split_and!.
  - intros E C arc. by rewrite missing_of_names, Hnames.
  - intros E C arc. rewrite missing_of_names, Hnames. f_equiv.
    split.
    + intros (c & Hc & <-).
      assert (Hs : src_of c ∈ List.map src_of (dedup_by_src ∅ C)).
      { apply list_elem_of_fmap. eauto. }
      apply dedup_by_src_srcs in Hs as [Hs _].
      apply list_elem_of_fmap in Hs as (c' & Hc' & ?). exists c'.
      split; [done | congruence].
    + intros (c & Hc & <-).
      assert (Hs : src_of c ∈ List.map src_of (dedup_by_src ∅ C)).
      { apply dedup_by_src_srcs. split; [|apply not_elem_of_empty].
        apply list_elem_of_fmap. eauto. }
      apply list_elem_of_fmap in Hs as (c' & Hc' & ?). exists c'.
      split; [done | congruence].
  - vm_compute. reflexivity.
Qed.

End missing.

(** ** The archiving loop *)

Section archiving.

Import Patcher Notions.

Ltac eff :=
  unfold Eff.try_except, Eff.try_finally, Eff.bind, Eff.ret, Eff.raise,
    Eff.modify, Eff.get, print, eprint, emit, subprocess_run; simpl.

Lemma for_fold_cons {S A B} (x : A) (l : list A) (acc : B)
    (body : B → A → Eff.M S B) (s : S) :
  Eff.for_fold (x :: l) acc body s =
  match body acc x s with
  | (Eff.Ok acc', s') => Eff.for_fold l acc' body s'
  | (Eff.Raised e, s') => (Eff.Raised e, s')
  end.
Proof. reflexivity. Qed.

Lemma archive_one_skip (h : Host) (bind_dir : string) (dry : bool)
    (existing : gset string) (created : list string) (b : bind_mount) (w : World) :
  not_in existing b = false →
  archive_one h bind_dir dry existing created b w = (Eff.Ok created, w).
Proof.
  destruct b as [[cname src] dst]. unfold not_in, arc_of, archive_one. simpl.
  intros Hin%bool_decide_eq_false. rewrite bool_decide_eq_true_2; [done|].
  by destruct (decide (safe_archive_name_from_src src ∈ existing)).
Qed.

Lemma archive_one_run (h : Host) (bind_dir : string)
    (existing : gset string) (created : list string) (b : bind_mount) (w : World) :
  not_in existing b = true →
  ∃ w',
    archive_one h bind_dir false existing created b w =
      (Eff.Ok (created ++
               if tar_ok h bind_dir b && chown_ok h bind_dir b
               then [arc_of b] else []), w') ∧
    log w' = log w ++ archiving_trace h bind_dir b.
Proof.
  destruct b as [[cname src] dst].
  unfold not_in, archiving_trace, tar_ok, chown_ok, failed, tar_of, chown_of,
    archive_path_of, arc_of, archive_one. simpl.
  intros Hout%bool_decide_eq_true. rewrite bool_decide_eq_false_2 by done.
  eff.
  destruct (returncode h (tar_argv _ _) =? 0) eqn:Etar; simpl.
  - destruct (returncode h (chown_argv h _) =? 0) eqn:Echown; simpl.
    + eexists. split; [reflexivity|]. simpl. by rewrite <- !app_assoc.
    + eexists. split; [by rewrite app_nil_r|]. simpl. by rewrite <- !app_assoc.
  - eexists. split; [by rewrite app_nil_r|]. simpl. by rewrite <- !app_assoc.
Qed.

Lemma archive_loop (h : Host) (bind_dir : string) (existing : gset string)
    (bind_mounts : list bind_mount) (created : list string) (w : World) :
  ∃ w',
    Eff.for_fold bind_mounts created (archive_one h bind_dir false existing) w =
      (Eff.Ok (created ++
               List.map arc_of
                 (List.filter (λ b, tar_ok h bind_dir b && chown_ok h bind_dir b)
                    (List.filter (not_in existing) bind_mounts))),
       w') ∧
    log w' = log w ++
             flat_map (archiving_trace h bind_dir)
               (List.filter (not_in existing) bind_mounts).
Proof.
  revert created w.
  induction bind_mounts as [|b l IH]; intros created w.
  - exists w. simpl. by rewrite !app_nil_r.
  - rewrite for_fold_cons. cbn [List.filter].
    destruct (not_in existing b) eqn:E.
    + destruct (archive_one_run h bind_dir existing created b w E)
        as (w1 & -> & Hlog1).
      destruct (IH (created ++
                    if tar_ok h bind_dir b && chown_ok h bind_dir b
                    then [arc_of b] else []) w1) as (w' & -> & Hlog).
      exists w'. cbn [List.filter flat_map].
      rewrite Hlog, Hlog1, <- !app_assoc. split; [|done].
      by destruct (tar_ok h bind_dir b && chown_ok h bind_dir b).
    + rewrite archive_one_skip by done. apply IH.
Qed.

Lemma dry_run_loop (h : Host) (bind_dir : string) (existing : gset string)
    (bind_mounts : list bind_mount) (created : list string) (w : World) :
  Eff.for_fold bind_mounts created (archive_one h bind_dir true existing) w =
    (Eff.Ok (created ++ List.map arc_of (List.filter (not_in existing) bind_mounts)),
     {| fs := fs w;
        log := log w ++
               List.map (λ b, Stdout (WouldArchive (src_of b)
                                        (archive_path_of bind_dir b)))
                 (List.filter (not_in existing) bind_mounts) |}).
Proof.
  revert created w.
  induction bind_mounts as [|b l IH]; intros created w.
  - destruct w. simpl. by rewrite !app_nil_r.
  - rewrite for_fold_cons. cbn [List.filter].
    destruct (not_in existing b) eqn:E.
    + destruct b as [[cname src] dst].
      unfold archive_one at 1. unfold not_in, arc_of in E. simpl in E.
      apply bool_decide_eq_true in E. rewrite bool_decide_eq_false_2 by done.
      eff. rewrite IH. simpl. by rewrite <- !app_assoc.
    + rewrite archive_one_skip by done. apply IH.
Qed.

(** In dry-run mode [ensure_bind_archives] runs no command at all: it
    makes sure of the directory, lists it, and prints one line for
    each archive it would create. *)
Lemma ensure_bind_archives_dry_run (h : Host) (bind_mounts : list bind_mount)
    (bind_dir : string) (w : World) :
  ensure_bind_archives h bind_mounts bind_dir true w =
    (Eff.Ok (List.map arc_of
               (List.filter (not_in (found_in bind_dir w)) bind_mounts)),
     {| fs := list_to_set (PosixPath.lineage bind_dir) ∪ fs w;
        log := log w ++
               Mkdir bind_dir ::
               List.map (λ b, Stdout (WouldArchive (src_of b)
                                        (archive_path_of bind_dir b)))
                 (List.filter (not_in (found_in bind_dir w)) bind_mounts) |}).
Proof.
  unfold ensure_bind_archives, mkdir_parents, list_archives. eff.
  rewrite dry_run_loop. simpl. by rewrite <- app_assoc.
Qed.

(** C7, as stated, fails: when [tar] succeeds and the [chown] that
    follows it fails, the archive command has succeeded and yet the
    path is not in the result. *)
Lemma created_is_not_tar_succeeded_counterexample :
  ¬ (∀ (h : Host) (bind_mounts : list bind_mount) (bind_dir : string) (w : World),
       (ensure_bind_archives h bind_mounts bind_dir false w).1 =
       Eff.Ok (List.map arc_of
                 (List.filter (tar_ok h bind_dir)
                    (List.filter (not_in (found_in bind_dir w)) bind_mounts)))).
Proof.
  intros H.
  specialize (H chown_fails [("pihole", "/etc/pihole", "/etc/pihole")]
                "/b/bind-mounts" {| fs := {["/b"]}; log := [] |}).
  vm_compute in H. discriminate H.
Qed.

(** C7 (amended): in the archiving loop a failure for one path is
    reported to the error stream and the path is skipped, while every
    other path whose archive is missing is still processed: the loop
    always runs to its end, each such path has its [tar] command run,
    and the result lists exactly the paths for which both the [tar]
    command and the [chown] that follows it succeeded. *)
Theorem ensure_bind_archives_tolerates_failures
    (h : Host) (bind_mounts : list bind_mount) (bind_dir : string) (w : World) :
  let todo := List.filter (not_in (found_in bind_dir w)) bind_mounts in
  ∃ w',
    ensure_bind_archives h bind_mounts bind_dir false w =
      (Eff.Ok (List.map arc_of
                 (List.filter (λ b, tar_ok h bind_dir b && chown_ok h bind_dir b)
                    todo)),
       w') ∧
    log w' = log w ++ Mkdir bind_dir :: flat_map (archiving_trace h bind_dir) todo.
Proof.
  intros todo. unfold ensure_bind_archives, mkdir_parents, list_archives. eff.
  edestruct (archive_loop h bind_dir (found_in bind_dir w) bind_mounts [])
    as (w' & Hrun & Hlog).
  exists w'. split.
  - unfold found_in in Hrun. simpl in Hrun. exact Hrun.
  - rewrite Hlog. simpl. by rewrite <- app_assoc.
Qed.

End archiving.

(** ** Dry runs of the patcher *)

Section patcher_dry_run.

Import Patcher Notions.

(** C3 fails on the patcher.  A dry run on a backup that has no
    [bind-mounts] directory creates that directory, and a dry run with
    [--rebuild-image] runs the rebuild script. *)
Theorem dry_run_changes_the_host :
  (∃ w', main quiet_host (dry_run_args false) quiet_world = (Eff.Ok tt, w') ∧
         fs w' = {[PosixPath.join fresh_backup "bind-mounts"]} ∪ fs quiet_world ∧
         (PosixPath.join fresh_backup "bind-mounts" ∉ fs quiet_world) ∧
         List.filter patcher_mutates (log w') =
           [Mkdir (PosixPath.join fresh_backup "bind-mounts")]) ∧
  (∃ w', main quiet_host (dry_run_args true) quiet_world = (Eff.Ok tt, w') ∧
         List.filter patcher_mutates (log w') =
           [Mkdir (PosixPath.join fresh_backup "bind-mounts");
            Run ["/home/u/make-backup-image.sh"]]).
Proof.
  split.
  - eexists. split; [vm_compute; reflexivity|].
    split_and!; [by vm_compute | by vm_compute | by vm_compute].
  - eexists. split; [vm_compute; reflexivity|]. by vm_compute.
Qed.

End patcher_dry_run.

(** ** Container detection *)

Section detection.

Import Provisioner Notions.

Lemma contains_spec (s p : string) :
  Py.contains s p = true ↔ ∃ a b, s = a +:+ p +:+ b.
Proof.
  induction s as [|c s IH].
  - simpl. rewrite orb_false_r, startswith_spec. split.
    + intros [r ->]. by exists "", r.
    + intros ([|c a] & b & H); [by exists b | discriminate H].
  - cbn [Py.contains]. rewrite orb_true_iff, startswith_spec, IH. split.
    + intros [[r ->] | (a & b & ->)]; [by exists "", r|].
      by exists (String c a), b.
    + intros ([|c' a] & b & H); [left; by exists b|].
      rewrite append_cons in H. simplify_eq. right. by exists a, b.
Qed.

Lemma find_first {A} (f : A → bool) (l1 l2 : list A) (x : A) :
  (∀ y, y ∈ l1 → f y = false) → f x = true →
  List.find f (l1 ++ x :: l2) = Some x.
Proof.
  intros Hl1 Hx. induction l1 as [|y l1 IH]; simpl.
  - by rewrite Hx.
  - rewrite (Hl1 y) by apply list_elem_of_here. apply IH.
    intros z Hz. apply Hl1. by apply list_elem_of_further.
Qed.

Lemma find_nothing {A} (f : A → bool) (l : list A) :
  (∀ y, y ∈ l → f y = false) → List.find f l = None.
Proof.
  intros Hl. induction l as [|y l IH]; [done|]. simpl.
  rewrite (Hl y) by apply list_elem_of_here. apply IH.
  intros z Hz. apply Hl. by apply list_elem_of_further.
Qed.

Lemma detect_run (h : Host) (w : World) :
  detect_container_name h w =
  (match (if returncode h ps_argv =? 0 then pick_container (ps_out h) else None) with
   | Some n => Eff.Ok n
   | None => Eff.Raised (Eff.SystemExit (Eff.Text no_container))
   end,
   {| gravity := exec_effect h ps_argv (gravity w); files := files w;
      log := log w ++ [Run ps_argv] |}).
Proof.
  unfold detect_container_name, run, spawn, emit, Eff.try_except, Eff.bind,
    Eff.ret, Eff.raise, Eff.modify. simpl.
  destruct (returncode h ps_argv =? 0); simpl; [|done].
  by destruct (pick_container (ps_out h)).
Qed.

Lemma detect_result (h : Host) (w : World) :
  (detect_container_name h w).1 =
  match (if returncode h ps_argv =? 0 then pick_container (ps_out h) else None) with
  | Some n => Eff.Ok n
  | None => Eff.Raised (Eff.SystemExit (Eff.Text no_container))
  end.
Proof. by rewrite detect_run. Qed.

(** C10: from the names [docker ps] lists, auto-detection returns the
    exact name [pihole] when it is listed; otherwise the first name, in
    the order listed, that contains [pihole] once lower-cased; and
    when no name does, or the listing fails, it exits with the error
    that tells the caller to pass [--container]. *)
Theorem detect_container_name_spec (h : Host) (w : World) :
  let has_pihole := λ n, Py.contains (Py.lower n) "pihole" in
  (returncode h ps_argv = 0 → "pihole" ∈ ps_out h →
   (detect_container_name h w).1 = Eff.Ok "pihole") ∧
  (∀ l1 n l2,
     returncode h ps_argv = 0 → "pihole" ∉ ps_out h →
     ps_out h = l1 ++ n :: l2 →
     (∀ m, m ∈ l1 → has_pihole m = false) → has_pihole n = true →
     (detect_container_name h w).1 = Eff.Ok n) ∧
  (returncode h ps_argv ≠ 0 ∨ (∀ m, m ∈ ps_out h → has_pihole m = false) →
   (detect_container_name h w).1 = Eff.Raised (Eff.SystemExit (Eff.Text no_container))) ∧
  Py.contains no_container "Pass --container <name>" = true.
Proof.
  intros has_pihole. rewrite detect_result. split_and!.
  - intros -> Hin. simpl. unfold pick_container.
    by rewrite bool_decide_eq_true_2.
  - intros l1 n l2 -> Hout Hlist Hl1 Hn. simpl. unfold pick_container.
    rewrite bool_decide_eq_false_2 by done.
    by rewrite Hlist, (find_first _ l1 l2 n).
  - intros [Hrc | Hnone].
    + by rewrite (proj2 (Z.eqb_neq _ _) Hrc).
    + destruct (returncode h ps_argv =? 0); [|done].
      unfold pick_container. rewrite bool_decide_eq_false_2.
      * by rewrite find_nothing.
      * intros Hin. specialize (Hnone _ Hin). discriminate Hnone.
  - reflexivity.
Qed.

Lemma detect_container_name_spec_witness :
  (detect_container_name three_containers idle).1 = Eff.Ok "My-PiHole-1".
Proof.
  apply (proj1 (proj2 (detect_container_name_spec three_containers idle))
           ["caddy"] "My-PiHole-1" ["pihole2"]).
  - reflexivity.
  - intros Hin.
    repeat (apply elem_of_cons in Hin as [Hin | Hin]; [discriminate Hin|]).
    by apply elem_of_nil in Hin.
  - reflexivity.
  - intros m ->%list_elem_of_singleton. reflexivity.
  - reflexivity.
Defined.

End detection.

(** ** Image resolution *)

Section image_resolution.

Import Inspector Notions.

Variable report : string → Eff.M World unit.

Ltac eff :=
  unfold run, spawn, print, eprint, emit;
  unfold Eff.try_except, Eff.try_finally, Eff.bind, Eff.ret, Eff.raise,
    Eff.modify, Eff.get;
  cbn [fs log cid fst snd].

Lemma sorted_last_greatest (l : list string) (i : string) :
  last (Py.sorted l) = Some i → i ∈ l ∧ ∀ j, j ∈ l → String.le j i.
Proof.
  unfold Py.sorted. intros (l' & Hl)%last_Some.
  pose proof (merge_sort_Permutation String.le l) as Hperm.
  pose proof (StronglySorted_merge_sort String.le l) as Hsorted.
  rewrite Hl in Hperm, Hsorted. split.
  - rewrite <- Hperm. apply elem_of_app. right. apply list_elem_of_here.
  - intros j Hj. rewrite <- Hperm in Hj.
    apply elem_of_app in Hj as [Hj | ->%list_elem_of_singleton]; [|done].
    eapply StronglySorted_app_1_elem_of; [done.. | apply list_elem_of_here].
Qed.

Lemma list_backup_images_result (h : Host) (w : World) :
  (list_backup_images h w).1 =
  Eff.Ok (if returncode h images_argv =? 0
          then Py.sorted (List.filter is_backup_image (images_out h))
          else []).
Proof.
  unfold list_backup_images. eff.
  by destruct (returncode h images_argv =? 0).
Qed.

Lemma autodetect_image_result (h : Host) (w : World) :
  (autodetect_image h w).1 =
  Eff.Ok (if returncode h images_argv =? 0
          then last (Py.sorted (List.filter is_backup_image (images_out h)))
          else None).
Proof.
  unfold autodetect_image, list_backup_images. eff.
  destruct (returncode h images_argv =? 0); simpl; [|done].
  by destruct (Py.sorted _).
Qed.

(** Without an explicit tag the image picked is, among the local images
    named [homelab-backup:...], the greatest in lexicographic order. *)
Lemma autodetect_image_greatest (h : Host) (w : World) (i : string) :
  (autodetect_image h w).1 = Eff.Ok (Some i) →
  i ∈ images_out h ∧ is_backup_image i = true ∧
  ∀ j, j ∈ images_out h → is_backup_image j = true → String.le j i.
Proof.
  rewrite autodetect_image_result.
  destruct (returncode h images_argv =? 0); [|done].
  intros [= [Hi Hmax]%sorted_last_greatest].
  apply list_elem_of_In, filter_In in Hi as [Hi Hb].
  apply list_elem_of_In in Hi. split_and!; [done..|].
  intros j Hj Hjb. apply Hmax, list_elem_of_In, filter_In.
  split; [by apply list_elem_of_In | done].
Qed.

(** With no tag given and no such image, the process prints the
    guidance and exits with status 2. *)
Lemma main_without_image (h : Host) (w : World) (e : list string) :
  (autodetect_image h w).1 = Eff.Ok None →
  ∃ w', main report h {| image := None; auto := false; expect := e |} w =
          (Eff.Raised (Eff.SystemExit (Eff.Code 2)), w') ∧
        last (log w') = Some (Stderr ErrNoImage).
Proof.
  unfold main. cbn [image auto Py.or_else orb String.eqb].
  unfold Eff.bind at 1 2.
  destruct (autodetect_image h w) as [[found|ex] w1]; simpl; [|done].
  intros [= ->]. eff. eexists. split; [done|]. apply last_snoc.
Qed.

(** C8 fails on a create failure.  When [docker create] exits with a
    non-zero status, the handler evaluates [" ".join(e.args[0])] on the
    return code, which raises [TypeError]: the process dies with that
    error after the clean-up, having printed neither the error message
    nor the list of available images, and without having listed the
    images. *)
Theorem create_failure_lists_nothing (h : Host) (w : World)
    (a : ascii) (tag : string) (e : list string) :
  returncode h (create_argv (String a tag)) ≠ 0 →
  ∃ w',
    main report h {| image := Some (String a tag); auto := false; expect := e |} w =
      (Eff.Raised (Eff.TypeError "can only join an iterable"), w') ∧
    log w' = log w ++ [Mkdtemp (tmp h); Stdout (UsingImage (String a tag));
                       Run (create_argv (String a tag)); Rmtree (tmp h)].
Proof.
  intros Hrc%Z.eqb_neq.
  unfold main, inspect, create_container. cbn [image auto Py.or_else orb String.eqb].
  eff. rewrite Hrc. simpl. eexists. split; [reflexivity|].
  simpl. by rewrite <- !app_assoc.
Qed.

End image_resolution.

Lemma create_failure_lists_nothing_witness :
  (Inspector.main (λ _, Eff.ret tt) Notions.create_fails
     {| Inspector.image := Some "homelab-backup:2025-08-13_090000";
        Inspector.auto := false; Inspector.expect := [] |}
     Notions.before_inspect).1 =
  Eff.Raised (Eff.TypeError "can only join an iterable").
Proof.
  destruct (create_failure_lists_nothing (λ _, Eff.ret tt) Notions.create_fails
              Notions.before_inspect "h" "omelab-backup:2025-08-13_090000" [])
    as (w' & Hrun & _).
  - discriminate.
  - exact (f_equal fst Hrun).
Defined.

(** ** The host-side edit of the gravity database *)

Section edit_db.

Import Provisioner Notions.

Ltac eff :=
  unfold run, spawn, print, emit;
  unfold Eff.try_except, Eff.try_finally, Eff.bind, Eff.ret, Eff.raise,
    Eff.modify, Eff.get;
  cbn [gravity files log fst snd].

Lemma apply_stmt_pack (now : Z) (st : statement) (T : Tables) :
  apply_stmt now st (pack T) = Some (pack (step now st T)).
Proof. by destruct st, T. Qed.

Lemma execute_pack (h : Host) (st : statement) (T : Tables) (w : World) :
  execute h st (pack T) w =
  (Eff.Ok (pack (step (clock h (length (log w))) st T)), logged w [Sql st]).
Proof. unfold execute. eff. by rewrite apply_stmt_pack. Qed.

Lemma logged_logged (w : World) (e1 e2 : list event) :
  logged (logged w e1) e2 = logged w (e1 ++ e2).
Proof. unfold logged. simpl. by rewrite <- app_assoc. Qed.

Lemma length_logged (w : World) (evs : list event) :
  length (log (logged w evs)) = (length (log w) + length evs)%nat.
Proof. simpl. by rewrite length_app. Qed.

Lemma upsert_pack (h : Host) (T : Tables) (entry : string * string) (w : World) :
  upsert h (pack T) entry w =
  (Eff.Ok (pack (upsert_at (clock h) (length (log w)) T entry)),
   logged w (List.map Sql (upsert_stmts entry))).
Proof.
  destruct entry as [url desc]. unfold upsert, Eff.bind.
  rewrite !execute_pack, !logged_logged, !length_logged. simpl.
  unfold upsert_at. simpl. repeat f_equal; lia.
Qed.

Lemma upserts_pack (h : Host) (l : list (string * string)) (T : Tables) (w : World) :
  Eff.for_fold l (pack T) (upsert h) w =
  (Eff.Ok (pack (upserts (clock h) (length (log w)) l T)),
   logged w (List.map Sql (flat_map upsert_stmts l))).
Proof.
  revert T w. induction l as [|entry l IH]; intros T w.
  - simpl. unfold Eff.ret, logged. rewrite app_nil_r. by destruct w.
  - rewrite for_fold_cons, upsert_pack, IH, logged_logged, length_logged.
    cbn [upserts flat_map]. rewrite map_app. repeat f_equal.
Qed.

Lemma missing_tables_pack (T : Tables) : missing_tables (pack T) = [].
Proof. reflexivity. Qed.

Lemma missing_tables_absent (db : Db) :
  group_t db = None ∨ adlist_t db = None ∨ adlist_by_group_t db = None →
  ∃ t miss, missing_tables db = t :: miss.
Proof.
  destruct db as [[g|] [a|] [l|]]; intros H;
    try (eexists _, _; vm_compute; reflexivity).
  destruct H as [H | [H | H]]; discriminate H.
Qed.

Lemma db_is_packed (db : Db) :
  (∃ T, db = pack T) ∨
  group_t db = None ∨ adlist_t db = None ∨ adlist_by_group_t db = None.
Proof.
  destruct db as [[g|] [a|] [l|]]; auto.
  left. by exists {| groups := g; adlists := a; links := l |}.
Qed.

(** With the three tables there, the edit goes through and commits. *)
Lemma edit_db_on_host_ok (h : Host) (db_path : string) (w : World) (T : Tables) :
  files w !! db_path = Some (pack T) →
  edit_db_on_host h db_path w =
  (Eff.Ok tt,
   {| gravity := gravity w;
      files := <[db_path := pack (edits (clock h) (length (log w)) T)]> (files w);
      log := log w ++ edit_events |}).
Proof.
  intros Hfile. unfold edit_db_on_host.
  unfold Eff.bind at 1, Eff.get at 1. rewrite Hfile.
  unfold Eff.try_finally, Eff.bind.
  rewrite execute_pack, missing_tables_pack.
  change (step _ SelectTables T) with T.
  rewrite !execute_pack, upserts_pack, !logged_logged, !length_logged.
  eff. unfold edits, edit_events. simpl.
  rewrite <- !app_assoc. repeat f_equal; lia.
Qed.

(** With a table missing, the edit stops after reading the schema. *)
Lemma edit_db_on_host_stops (h : Host) (db_path : string) (w : World) (db : Db) :
  files w !! db_path = Some db →
  group_t db = None ∨ adlist_t db = None ∨ adlist_by_group_t db = None →
  edit_db_on_host h db_path w =
  (Eff.Raised
     (Eff.SystemExit
        (Eff.Text ("Unexpected DB schema; missing tables: " +:+
                   Py.join ", " (Py.sorted (missing_tables db))))),
   logged w [Sql SelectTables; Close]).
Proof.
  intros Hfile Habsent. unfold edit_db_on_host.
  unfold Eff.bind at 1, Eff.get at 1. rewrite Hfile.
  destruct (missing_tables_absent db Habsent) as (t & miss & Hmiss).
  unfold execute. eff. cbn [apply_stmt]. rewrite Hmiss. unfold logged.
  cbn [gravity files log]. by rewrite <- app_assoc.
Qed.

(** C6: in the host-side edit, if any of the tables [adlist],
    [adlist_by_group], [group] is absent, the run ends with the fatal
    error that names the missing tables, having executed nothing but
    the query of the schema: the database file and the database in the
    container are as they were.  A write statement or a commit is
    executed only when the three tables exist. *)
Theorem edit_db_on_host_validates_schema
    (h : Host) (db_path : string) (w : World) (db : Db) :
  files w !! db_path = Some db →
  (group_t db = None ∨ adlist_t db = None ∨ adlist_by_group_t db = None →
   ∃ msg w',
     edit_db_on_host h db_path w = (Eff.Raised (Eff.SystemExit (Eff.Text msg)), w') ∧
     Py.startswith msg "Unexpected DB schema; missing tables: " = true ∧
     files w' = files w ∧ gravity w' = gravity w ∧
     log w' = log w ++ [Sql SelectTables; Close]) ∧
  (List.filter writes
     (drop (length (log w)) (log (edit_db_on_host h db_path w).2)) ≠ [] →
   is_Some (group_t db) ∧ is_Some (adlist_t db) ∧ is_Some (adlist_by_group_t db)).
Proof.
  intros Hfile. split.
  - intros Habsent. rewrite (edit_db_on_host_stops h db_path w db) by done.
    eexists _, _. split; [reflexivity|]. split_and!; [|done..].
    apply startswith_spec. by eexists.
  - destruct (db_is_packed db) as [[T ->] | Habsent].
    + intros _. split_and!; by eexists.
    + rewrite (edit_db_on_host_stops h db_path w db) by done.
      cbn [snd logged log]. rewrite drop_app_length. by intros [].
Qed.

Lemma edit_db_on_host_validates_schema_witness :
  ∃ msg w',
    edit_db_on_host three_containers "/tmp/tmpa1b2c3/gravity.db" (staged no_group_db) =
      (Eff.Raised (Eff.SystemExit (Eff.Text msg)), w') ∧
    Py.startswith msg "Unexpected DB schema; missing tables: " = true ∧
    files w' = files (staged no_group_db) ∧
    gravity w' = gravity (staged no_group_db) ∧
    log w' = log (staged no_group_db) ++ [Sql SelectTables; Close].
Proof.
  apply (proj1 (edit_db_on_host_validates_schema three_containers
                  "/tmp/tmpa1b2c3/gravity.db" (staged no_group_db) no_group_db
                  eq_refl)).
  by left.
Defined.

End edit_db.

(** ** Upserts *)

Section upserts.

Import Provisioner Notions.

Lemma add_link_incl (ls : list (Z * Z)) (l x : Z * Z) :
  x ∈ ls → x ∈ add_link ls l.
Proof.
  unfold add_link. case_bool_decide; [done|]. intros. apply elem_of_app. by left.
Qed.

Lemma add_link_in (ls : list (Z * Z)) (l : Z * Z) : l ∈ add_link ls l.
Proof.
  unfold add_link. case_bool_decide; [done|].
  apply elem_of_app. right. apply list_elem_of_here.
Qed.

Lemma add_links_incl (new ls : list (Z * Z)) (x : Z * Z) :
  x ∈ ls → x ∈ foldl add_link ls new.
Proof.
  revert ls. induction new as [|l new IH]; intros ls Hx; [done|].
  simpl. by apply IH, add_link_incl.
Qed.

Lemma add_links_in (new ls : list (Z * Z)) (x : Z * Z) :
  x ∈ new → x ∈ foldl add_link ls new.
Proof.
  revert ls. induction new as [|l new IH]; intros ls Hx.
  - by apply elem_of_nil in Hx.
  - simpl. apply elem_of_cons in Hx as [-> | Hx]; [|by apply IH].
    apply add_links_incl, add_link_in.
Qed.

Lemma add_links_absorb (new ls : list (Z * Z)) :
  (∀ x, x ∈ new → x ∈ ls) → foldl add_link ls new = ls.
Proof.
  induction new as [|l new IH]; intros Hall; [done|]. simpl.
  unfold add_link at 2. rewrite bool_decide_eq_true_2.
  - apply IH. intros x Hx. apply Hall. by apply list_elem_of_further.
  - apply Hall, list_elem_of_here.
Qed.

Lemma add_links_NoDup (new ls : list (Z * Z)) :
  NoDup ls → NoDup (foldl add_link ls new).
Proof.
  revert ls. induction new as [|l new IH]; intros ls Hnd; [done|].
  simpl. apply IH. unfold add_link. case_bool_decide as Hin; [done|].
  apply NoDup_app. split_and!; [done | | apply NoDup_singleton].
  by intros x Hx ->%list_elem_of_singleton.
Qed.

Lemma refresh_address (now : Z) (desc : string) (a : adlist_row) :
  a_address (refresh now desc a) = a_address a.
Proof. reflexivity. Qed.

Lemma has_address (url : string) (rows : list adlist_row) :
  existsb (λ a, String.eqb (a_address a) url) rows = true ↔
  ∃ a, a ∈ rows ∧ a_address a = url.
Proof.
  rewrite existsb_exists. split; intros (a & Ha & Hu); exists a.
  - apply list_elem_of_In in Ha. by apply String.eqb_eq in Hu.
  - apply list_elem_of_In in Ha. by apply String.eqb_eq in Hu.
Qed.

Lemma insert_adlist_has (now : Z) (url desc : string) (rows : list adlist_row) :
  ∃ a, a ∈ insert_adlist now url desc rows ∧ a_address a = url.
Proof.
  unfold insert_adlist.
  destruct (existsb _ rows) eqn:E; [by apply has_address in E|].
  eexists. split; [apply elem_of_app; right; apply list_elem_of_here|].
  reflexivity.
Qed.

Lemma insert_adlist_elem (now : Z) (url desc : string) (rows : list adlist_row)
    (a : adlist_row) :
  a ∈ insert_adlist now url desc rows ↔
  a ∈ rows ∨ (a ∈ insert_adlist now url desc rows ∧ a_address a = url).
Proof.
  split; [|intros [Ha | [Ha _]]; [|done]].
  - unfold insert_adlist. destruct (existsb _ rows); [by left|].
    intros [Ha | ->%list_elem_of_singleton]%elem_of_app; [by left|].
    right. split; [|done]. apply elem_of_app. right. apply list_elem_of_here.
  - unfold insert_adlist. destruct (existsb _ rows); [done|].
    apply elem_of_app. by left.
Qed.

Lemma insert_adlist_absorb (now : Z) (url desc : string) (rows : list adlist_row) :
  (∃ a, a ∈ rows ∧ a_address a = url) → insert_adlist now url desc rows = rows.
Proof. intros H%has_address. unfold insert_adlist. by rewrite H. Qed.

Lemma update_adlist_elem (now : Z) (desc url : string) (rows : list adlist_row)
    (a : adlist_row) :
  a ∈ update_adlist now desc url rows ↔
  ∃ a0, a0 ∈ rows ∧
        a = if String.eqb (a_address a0) url then refresh now desc a0 else a0.
Proof.
  unfold update_adlist. rewrite list_elem_of_fmap.
  split; intros (a0 & ? & ?); by exists a0.
Qed.

Lemma insert_link_elem (url : string) (rows : list adlist_row)
    (ls : list (Z * Z)) (a : adlist_row) :
  a ∈ rows → a_address a = url →
  (a_id a, DEFAULT_GROUP_ID) ∈ insert_link url rows ls.
Proof.
  intros Ha Hu. unfold insert_link. apply add_links_in.
  apply list_elem_of_fmap. exists a. split; [done|].
  apply list_elem_of_In, filter_In. split; [by apply list_elem_of_In|].
  by apply String.eqb_eq.
Qed.

(** An upsert puts its adlist in place. *)
Lemma upsert_establishes (t : nat → Z) (k : nat) (T : Tables) (url desc : string) :
  managed url desc (upsert_at t k T (url, desc)).
Proof.
  unfold managed, upsert_at. cbn [step adlists links fst snd]. split.
  - destruct (insert_adlist_has (t k) url desc (adlists T)) as (a & Ha & Hu).
    exists (refresh (t (k + 1)%nat) desc a). split; [|done].
    apply update_adlist_elem. exists a. split; [done|].
    by rewrite (proj2 (String.eqb_eq _ _) Hu).
  - intros a Ha Hu. split_and!.
    + apply update_adlist_elem in Ha as (a0 & _ & ->).
      destruct (String.eqb_spec (a_address a0) url) as [_ | Hne]; [done|].
      by destruct Hne.
    + apply update_adlist_elem in Ha as (a0 & _ & ->).
      destruct (String.eqb_spec (a_address a0) url) as [_ | Hne]; [done|].
      by destruct Hne.
    + by apply insert_link_elem.
Qed.

(** An upsert of another adlist leaves it in place. *)
Lemma upsert_preserves (t : nat → Z) (k : nat) (T : Tables)
    (url desc url' desc' : string) :
  url' ≠ url → managed url desc T →
  managed url desc (upsert_at t k T (url', desc')).
Proof.
  intros Hne [(a & Ha & Hu) Hall].
  unfold managed, upsert_at. cbn [step adlists links fst snd]. split.
  - exists a. split; [|done]. apply update_adlist_elem. exists a. split.
    + apply insert_adlist_elem. by left.
    + destruct (String.eqb_spec (a_address a) url'); [congruence | done].
  - intros b Hb Hbu.
    apply update_adlist_elem in Hb as (b0 & Hb0 & ->).
    destruct (String.eqb_spec (a_address b0) url') as [E | _].
    { rewrite refresh_address in Hbu. congruence. }
    apply insert_adlist_elem in Hb0 as [Hb0 | [_ E]]; [|congruence].
    destruct (Hall b0 Hb0 Hbu) as (? & ? & ?). split_and!; [done..|].
    by apply add_links_incl.
Qed.

Lemma forget_refresh (now : Z) (desc : string) (a : adlist_row) :
  a_enabled a = 1 → a_comment a = desc →
  forget_row (refresh now desc a) = forget_row a.
Proof. destruct a. simpl. by intros -> ->. Qed.

(** An upsert of an adlist in place changes nothing but
    [date_modified]. *)
Lemma upsert_absorbs (t : nat → Z) (k : nat) (T : Tables) (url desc : string) :
  managed url desc T → forget (upsert_at t k T (url, desc)) = forget T.
Proof.
  intros [Hex Hall]. unfold forget, upsert_at. cbn [step adlists links groups fst snd].
  rewrite (insert_adlist_absorb _ _ _ _ Hex). f_equal.
  - unfold update_adlist. rewrite map_map. apply map_ext_in.
    intros a Ha%list_elem_of_In.
    destruct (String.eqb_spec (a_address a) url) as [E | _]; [|done].
    destruct (Hall a Ha E) as (? & ? & _). by apply forget_refresh.
  - unfold insert_link. apply add_links_absorb.
    intros x (a & -> & Ha)%list_elem_of_fmap.
    apply list_elem_of_In, filter_In in Ha as [Ha E].
    apply list_elem_of_In, update_adlist_elem in Ha as (a0 & Ha0 & ->).
    apply String.eqb_eq in E.
    destruct (String.eqb_spec (a_address a0) url) as [E0 | _].
    + by apply (Hall a0 Ha0 E0).
    + by apply (Hall a0 Ha0 E).
Qed.

Lemma upserts_preserve (t : nat → Z) (k : nat) (l : list (string * string))
    (T : Tables) (url desc : string) :
  url ∉ List.map fst l → managed url desc T →
  managed url desc (upserts t k l T).
Proof.
  revert k T. induction l as [|[u d] l IH]; intros k T Hout Hm; [done|].
  simpl. apply IH.
  - intros Hin. apply Hout. by apply list_elem_of_further.
  - apply upsert_preserves; [|done]. intros ->. apply Hout, list_elem_of_here.
Qed.

(** After the upserts of a list without repeated addresses, every
    adlist of the list is in place. *)
Lemma upserts_establish (t : nat → Z) (k : nat) (l : list (string * string))
    (T : Tables) (url desc : string) :
  NoDup (List.map fst l) → (url, desc) ∈ l → managed url desc (upserts t k l T).
Proof.
  revert k T. induction l as [|[u d] l IH]; intros k T Hnd Hin.
  - by apply elem_of_nil in Hin.
  - apply NoDup_cons in Hnd as [Hout Hnd]. simpl.
    apply elem_of_cons in Hin as [[= -> ->] | Hin]; [|by apply IH].
    apply upserts_preserve; [done|]. apply upsert_establishes.
Qed.

(** Upserts of adlists that are all in place change nothing but
    [date_modified]. *)
Lemma upserts_absorb (t : nat → Z) (k : nat) (l : list (string * string))
    (T : Tables) :
  NoDup (List.map fst l) →
  (∀ url desc, (url, desc) ∈ l → managed url desc T) →
  forget (upserts t k l T) = forget T.
Proof.
  revert k T. induction l as [|[u d] l IH]; intros k T Hnd Hall; [done|].
  apply NoDup_cons in Hnd as [Hout Hnd]. simpl. rewrite IH; [|done|].
  - apply upsert_absorbs, Hall, list_elem_of_here.
  - intros url desc Hin. apply upsert_preserves.
    + intros ->. apply Hout, list_elem_of_fmap. by exists (url, desc).
    + by apply Hall, list_elem_of_further.
Qed.

Lemma upserts_groups (t : nat → Z) (k : nat) (l : list (string * string))
    (T : Tables) :
  groups (upserts t k l T) = groups T.
Proof. revert k T. induction l as [|e l IH]; intros k T; [done|]. simpl. by rewrite IH. Qed.

Lemma upserts_links_NoDup (t : nat → Z) (k : nat) (l : list (string * string))
    (T : Tables) :
  NoDup (links T) → NoDup (links (upserts t k l T)).
Proof.
  revert k T. induction l as [|e l IH]; intros k T Hnd; [done|]. simpl.
  apply IH. unfold upsert_at. cbn [step links]. by apply add_links_NoDup.
Qed.

Lemma enable_group_id (g : group_row) :
  g_enabled g = 1 → enable_group g = g.
Proof. destruct g. simpl. by intros ->. Qed.

Lemma ensure_group_ok (rows : list group_row) :
  let rows' := update_group (insert_group rows) in
  (∃ g, g ∈ rows' ∧ g_id g = DEFAULT_GROUP_ID) ∧
  ∀ g, g ∈ rows' → g_id g = DEFAULT_GROUP_ID → g_enabled g = 1.
Proof.
  simpl. split.
  - assert (∃ g, g ∈ insert_group rows ∧ g_id g = DEFAULT_GROUP_ID)
      as (g & Hg & Hid).
    { unfold insert_group. destruct (existsb _ rows) eqn:E.
      - apply existsb_exists in E as (g & Hg & Hid).
        exists g. split; [by apply list_elem_of_In | by apply Z.eqb_eq].
      - exists default_group. split; [|done]. apply elem_of_app. right.
        apply list_elem_of_here. }
    exists (enable_group g). split; [|done].
    apply list_elem_of_fmap. exists g. split; [|done].
    by rewrite (proj2 (Z.eqb_eq _ _) Hid).
  - intros g (g0 & -> & _)%list_elem_of_fmap.
    destruct (Z.eqb_spec (g_id g0) DEFAULT_GROUP_ID); [done|]. by intros.
Qed.

Lemma ensure_group_absorb (rows : list group_row) :
  (∃ g, g ∈ rows ∧ g_id g = DEFAULT_GROUP_ID) →
  (∀ g, g ∈ rows → g_id g = DEFAULT_GROUP_ID → g_enabled g = 1) →
  update_group (insert_group rows) = rows.
Proof.
  intros (g & Hg & Hid) Hall. unfold insert_group.
  assert (existsb (λ g, g_id g =? DEFAULT_GROUP_ID) rows = true) as ->.
  { apply existsb_exists. exists g. split; [by apply list_elem_of_In|].
    by apply Z.eqb_eq. }
  unfold update_group. rewrite <- (map_id rows) at 2. apply map_ext_in.
  intros g' Hg'%list_elem_of_In.
  destruct (Z.eqb_spec (g_id g') DEFAULT_GROUP_ID) as [E | _]; [|done].
  by apply enable_group_id, Hall.
Qed.

Lemma ADLISTS_NoDup : NoDup (List.map fst ADLISTS).
Proof.
  apply NoDup_ListNoDup. repeat constructor; simpl; intros H;
    repeat (destruct H as [H | H]; [discriminate H|]); exact H.
Qed.

(** A second run of the edits, whatever the clocks of the two runs,
    changes nothing but [date_modified]. *)
Lemma edits_idempotent (t1 t2 : nat → Z) (k1 k2 : nat) (T : Tables) :
  forget (edits t2 k2 (edits t1 k1 T)) = forget (edits t1 k1 T).
Proof.
  set (T1 := edits t1 k1 T).
  assert (Hg : groups T1 = update_group (insert_group (groups T))).
  { unfold T1, edits. by rewrite upserts_groups. }
  unfold edits at 1. cbn [step groups adlists links].
  destruct (ensure_group_ok (groups T)) as [Hex Hall]. rewrite <- Hg in Hex, Hall.
  rewrite (ensure_group_absorb _ Hex Hall).
  replace {| groups := groups T1; adlists := adlists T1; links := links T1 |}
    with T1 by by destruct T1.
  apply upserts_absorb; [apply ADLISTS_NoDup|].
  intros url desc Hin. unfold T1, edits.
  by apply upserts_establish; [apply ADLISTS_NoDup|].
Qed.

Lemma edits_managed (t : nat → Z) (k : nat) (T : Tables) (url desc : string) :
  (url, desc) ∈ ADLISTS → managed url desc (edits t k T).
Proof. intros Hin. by apply upserts_establish; [apply ADLISTS_NoDup|]. Qed.

Lemma edits_links_NoDup (t : nat → Z) (k : nat) (T : Tables) :
  NoDup (links T) → NoDup (links (edits t k T)).
Proof. intros Hnd. by apply upserts_links_NoDup. Qed.

End upserts.

(** ** Idempotence of the host-side edit *)

Section idempotence.

Import Provisioner Notions.

Lemma edit_db_on_host_no_file (h : Host) (db_path : string) (w : World) :
  files w !! db_path = None →
  edit_db_on_host h db_path w =
  (Eff.Raised (Eff.SystemExit (Eff.Text ("DB file not found at " +:+ db_path))), w).
Proof.
  intros Hfile. unfold edit_db_on_host, Eff.bind, Eff.get. by rewrite Hfile.
Qed.

(** A run that succeeds started from a file with the three tables. *)
Lemma edit_db_on_host_ok_inv (h : Host) (db_path : string) (w w1 : World) :
  edit_db_on_host h db_path w = (Eff.Ok tt, w1) →
  ∃ T, files w !! db_path = Some (pack T) ∧
       w1 = {| gravity := gravity w;
               files := <[db_path := pack (edits (clock h) (length (log w)) T)]>
                          (files w);
               log := log w ++ edit_events |}.
Proof.
  intros Hrun. destruct (files w !! db_path) as [db|] eqn:Hfile.
  - destruct (db_is_packed db) as [[T ->] | Habsent].
    + exists T. split; [done|].
      rewrite (edit_db_on_host_ok h db_path w T Hfile) in Hrun. congruence.
    + by rewrite (edit_db_on_host_stops h db_path w db) in Hrun.
  - by rewrite edit_db_on_host_no_file in Hrun.
Qed.

(** The end-to-end scenario of the specification: from the three empty
    tables one run leaves three adlists, each enabled and linked to
    group 0, and the enabled group 0. *)
Example provision_empty_database :
  let T := edits (λ _, 1755000000) 0
             {| groups := []; adlists := []; links := [] |} in
  List.map listed (adlists T) =
    [(1, 1, "https://big.oisd.nl/", "OISD Big");
     (2, 1, "https://v.firebog.net/hosts/Easyprivacy.txt", "EasyPrivacy (Firebog)");
     (3, 1, "https://v.firebog.net/hosts/AdguardDNS.txt", "AdGuard DNS (Firebog)")] ∧
  links T = [(1, 0); (2, 0); (3, 0)] ∧
  groups T = [default_group].
Proof. by vm_compute. Qed.

(** C2: running the database-edit step a second time on the database
    the first run left succeeds and leaves the same database, the
    column [date_modified] apart (each run sets it to its own time):
    the same groups, the same adlist rows with the same ids,
    addresses, enabled flags, dates of addition and labels, and the
    same links.  Every adlist of the list is there, enabled and linked
    to the default group, and the links hold no pair twice when they
    held none twice at the start. *)
Theorem edit_db_on_host_idempotent
    (h1 h2 : Host) (db_path : string) (w w1 : World) :
  edit_db_on_host h1 db_path w = (Eff.Ok tt, w1) →
  ∃ w2 T1 T2,
    edit_db_on_host h2 db_path w1 = (Eff.Ok tt, w2) ∧
    files w1 !! db_path = Some (pack T1) ∧
    files w2 = <[db_path := pack T2]> (files w1) ∧
    forget T2 = forget T1 ∧
    (∀ url desc, (url, desc) ∈ ADLISTS → managed url desc T2) ∧
    (∀ db, files w !! db_path = Some db →
           NoDup (default [] (adlist_by_group_t db)) → NoDup (links T2)).
Proof.
  intros (T & Hfile & ->)%edit_db_on_host_ok_inv.
  set (T1 := edits (clock h1) (length (log w)) T).
  set (w1 := {| gravity := gravity w; files := <[db_path := pack T1]> (files w);
                log := log w ++ edit_events |}).
  assert (Hfile1 : files w1 !! db_path = Some (pack T1))
    by apply lookup_insert_eq.
  eexists _, T1, (edits (clock h2) (length (log w1)) T1).
  split_and!.
  - by apply edit_db_on_host_ok.
  - done.
  - done.
  - apply edits_idempotent.
  - intros url desc Hin. by apply edits_managed.
  - intros db Hdb Hnd. rewrite Hfile in Hdb. injection Hdb as <-.
    by apply edits_links_NoDup, edits_links_NoDup.
Qed.

Lemma edit_db_on_host_idempotent_witness :
  ∃ w2 T1 T2,
    edit_db_on_host next_day "/tmp/tmpa1b2c3/gravity.db"
      (edit_db_on_host three_containers "/tmp/tmpa1b2c3/gravity.db"
         (staged empty_db)).2 = (Eff.Ok tt, w2) ∧
    files (edit_db_on_host three_containers "/tmp/tmpa1b2c3/gravity.db"
             (staged empty_db)).2 !! "/tmp/tmpa1b2c3/gravity.db" = Some (pack T1) ∧
    files w2 =
      <["/tmp/tmpa1b2c3/gravity.db" := pack T2]>
        (files (edit_db_on_host three_containers "/tmp/tmpa1b2c3/gravity.db"
                  (staged empty_db)).2) ∧
    forget T2 = forget T1 ∧
    (∀ url desc, (url, desc) ∈ ADLISTS → managed url desc T2) ∧
    (∀ db, files (staged empty_db) !! "/tmp/tmpa1b2c3/gravity.db" = Some db →
           NoDup (default [] (adlist_by_group_t db)) → NoDup (links T2)).
Proof.
  apply (edit_db_on_host_idempotent three_containers next_day
           "/tmp/tmpa1b2c3/gravity.db" (staged empty_db)).
  apply (edit_db_on_host_ok three_containers "/tmp/tmpa1b2c3/gravity.db"
           (staged empty_db) {| groups := []; adlists := []; links := [] |}).
  reflexivity.
Defined.

End idempotence.

(** ** Dry runs of the provisioner *)

Section provisioner_dry_run.

Import Provisioner Notions.

Ltac eff :=
  unfold container_has_sqlite3, with_tempdir, docker_cp_out, run, spawn, print, emit;
  unfold Eff.try_except, Eff.try_finally, Eff.bind, Eff.ret, Eff.raise,
    Eff.modify, Eff.get;
  cbn [gravity files log fst snd].

(** The provisioner's part of C3 holds: a dry run executes no
    statement on any database and runs no subprocess but the listing
    of the containers, the test for [sqlite3] and the copy of the
    database out of the container; the database in the container is
    changed by nothing the script itself does. *)
Lemma provisioner_dry_run_reads_only (h : Host) (c : option string) (w : World) :
  ∃ name,
    Forall (read_only name)
      (drop (length (log w))
         (log (main h {| container := c; dry_run := true; list_only := false |} w).2)).
Proof.
  unfold main. cbn [container dry_run list_only].
  assert (Hbody : ∀ name w0 (pre : list event),
    log w0 = log w ++ pre → Forall (read_only name) pre →
    Forall (read_only name)
      (drop (length (log w))
         (log ((print (TargetContainer name) ;;;
                print Ensuring ;;;
                has <- container_has_sqlite3 h name ;;
                (if has then print (WouldRunSql whole_sql)
                 else
                   with_tempdir h
                     (λ td,
                        let local_db := PosixPath.os_join td "gravity.db" in
                        docker_cp_out h name local_db ;;;
                        print (WouldEdit local_db))) ;;;
                print SkippingGravity ;;;
                (Eff.raise (Eff.SystemExit (Eff.Code 0)) : Eff.M World unit))
                 w0).2))).
  { intros name w0 pre Hlog Hpre. eff.
    destruct (returncode h (has_sqlite3_argv name) =? 0); cbn [gravity files log fst snd].
    - rewrite Hlog. rewrite <- ?app_assoc, drop_app_length.
      apply Forall_app. split; [done|]. simpl.
      repeat (apply Forall_cons; split; [simpl; eauto|]). constructor.
    - destruct (returncode h (cp_out_argv name _) =? 0);
        cbn [gravity files log fst snd]; rewrite Hlog;
        rewrite <- ?app_assoc, drop_app_length;
        (apply Forall_app; split; [done|]); simpl;
        repeat (apply Forall_cons; split; [simpl; eauto|]); constructor. }
  assert (Hdetect : ∀ k : string → Eff.M World unit,
    (∀ name w0 pre, log w0 = log w ++ pre → Forall (read_only name) pre →
       Forall (read_only name) (drop (length (log w)) (log (k name w0).2))) →
    ∃ name, Forall (read_only name)
              (drop (length (log w))
                 (log (Eff.bind (detect_container_name h) k w).2))).
  { intros k Hk. unfold Eff.bind. rewrite detect_run.
    destruct (if returncode h ps_argv =? 0 then pick_container (ps_out h) else None)
      as [name|].
    - exists name. apply (Hk name _ [Run ps_argv]); [done|].
      apply Forall_cons. split; [simpl; eauto | constructor].
    - exists "". cbn [snd log]. rewrite drop_app_length.
      apply Forall_cons. split; [simpl; eauto | constructor]. }
  destruct c as [[|a c]|].
  - apply Hdetect. intros name w0 pre. apply Hbody.
  - exists (String a c). unfold Eff.bind at 1, Eff.ret at 1.
    apply (Hbody (String a c) w []); [by rewrite app_nil_r | constructor].
  - apply Hdetect. intros name w0 pre. apply Hbody.
Qed.

End provisioner_dry_run.

(** ** Reasoning about what a run logs *)

Section trace_rules.

Import Notions.

Context {S E : Type} (log : S → list E).

Lemma emits_ret {A} (P : E → Prop) (Q : A → Prop) (a : A) :
  Q a → emits log P Q (Eff.ret a).
Proof.
  intros HQ s. exists []. rewrite app_nil_r. split_and!; [done | constructor|].
  by intros a' [= <-].
Qed.

Lemma emits_raise {A} (P : E → Prop) (Q : A → Prop) (e : Eff.exn) :
  emits log P Q (Eff.raise e).
Proof.
  intros s. exists []. rewrite app_nil_r. split_and!; [done | constructor | done].
Qed.

Lemma emits_bind {A B} (P : E → Prop) (Q1 : A → Prop) (Q2 : B → Prop)
    (m : Eff.M S A) (k : A → Eff.M S B) :
  emits log P Q1 m → (∀ a, Q1 a → emits log P Q2 (k a)) →
  emits log P Q2 (Eff.bind m k).
Proof.
  intros Hm Hk s. destruct (Hm s) as (evs & Hlog & HP & HQ).
  unfold Eff.bind. destruct (m s) as [[a|e] s1]; simpl in *.
  - destruct (Hk a (HQ a eq_refl) s1) as (evs' & Hlog' & HP' & HQ').
    exists (evs ++ evs'). rewrite Hlog', Hlog, app_assoc.
    split_and!; [done | by apply Forall_app | done].
  - exists evs. by split_and!.
Qed.

Lemma emits_try_except {A} (P : E → Prop) (Q : A → Prop)
    (m : Eff.M S A) (handler : Eff.exn → Eff.M S A) :
  emits log P Q m → (∀ e, emits log P Q (handler e)) →
  emits log P Q (Eff.try_except m handler).
Proof.
  intros Hm Hh s. destruct (Hm s) as (evs & Hlog & HP & HQ).
  unfold Eff.try_except. destruct (m s) as [[a|e] s1]; simpl in *.
  - exists evs. by split_and!.
  - destruct (Hh e s1) as (evs' & Hlog' & HP' & HQ').
    exists (evs ++ evs'). rewrite Hlog', Hlog, app_assoc.
    split_and!; [done | by apply Forall_app | done].
Qed.

Lemma emits_try_finally {A} (P : E → Prop) (Q : A → Prop)
    (m : Eff.M S A) (cleanup : Eff.M S unit) :
  emits log P Q m → emits log P (λ _, True) cleanup →
  emits log P Q (Eff.try_finally m cleanup).
Proof.
  intros Hm Hc s. destruct (Hm s) as (evs & Hlog & HP & HQ).
  unfold Eff.try_finally. destruct (m s) as [r s1]; simpl in *.
  destruct (Hc s1) as (evs' & Hlog' & HP' & _).
  exists (evs ++ evs').
  destruct (cleanup s1) as [[[]|e] s2]; simpl in *;
    rewrite Hlog', Hlog, app_assoc;
    (split_and!; [done | by apply Forall_app | done]).
Qed.

Lemma emits_for_fold {A B} (P : E → Prop) (Q : B → Prop)
    (l : list A) (acc : B) (body : B → A → Eff.M S B) :
  Q acc → (∀ acc x, Q acc → x ∈ l → emits log P Q (body acc x)) →
  emits log P Q (Eff.for_fold l acc body).
Proof.
  revert acc. induction l as [|x l IH]; intros acc Hacc Hbody.
  - by apply emits_ret.
  - cbn [Eff.for_fold]. eapply emits_bind.
    + apply Hbody; [done | apply list_elem_of_here].
    + intros acc' Hacc'. apply IH; [done|].
      intros acc'' y ? ?. apply Hbody; [done | by apply list_elem_of_further].
Qed.

Lemma emits_weaken {A} (P P' : E → Prop) (Q Q' : A → Prop) (m : Eff.M S A) :
  (∀ e, P e → P' e) → (∀ a, Q a → Q' a) →
  emits log P Q m → emits log P' Q' m.
Proof.
  intros HP HQ Hm s. destruct (Hm s) as (evs & Hlog & HPs & HQs).
  exists evs. split_and!; [done | by eapply Forall_impl | auto].
Qed.

End trace_rules.

(** ** What the patcher runs *)

Section patcher_traces.

Import Patcher Notions.

Variable P : event → Prop.
Hypothesis P_stdout : ∀ m, P (Stdout m).
Hypothesis P_stderr : ∀ m, P (Stderr m).

Local Abbreviation quiet := (λ _, True).

Lemma emits_emit (e : event) : P e → emits log P quiet (emit e).
Proof.
  intros He w. exists [e]. split_and!; [done | by repeat constructor | done].
Qed.

Lemma emits_print (m : message) : emits log P quiet (print m).
Proof. by apply emits_emit. Qed.

Lemma emits_eprint (m : message) : emits log P quiet (eprint m).
Proof. by apply emits_emit. Qed.

Lemma emits_silent {A} (Q : A → Prop) (m : Eff.M World A) :
  (∀ w, log (m w).2 = log w) → (∀ w a, (m w).1 = Eff.Ok a → Q a) →
  emits log P Q m.
Proof.
  intros Hlog HQ w. exists []. rewrite app_nil_r.
  split_and!; [done | constructor | apply HQ].
Qed.

Lemma emits_path_exists (p : string) : emits log P quiet (path_exists p).
Proof. by apply emits_silent. Qed.

Lemma emits_list_archives (d : string) : emits log P quiet (list_archives d).
Proof. by apply emits_silent. Qed.

Lemma emits_subprocess_run (h : Host) (argv : list string) :
  P (Run argv) → emits log P quiet (subprocess_run h argv).
Proof.
  intros Hrun. unfold subprocess_run.
  eapply emits_bind; [by apply emits_emit|]. intros _ _.
  eapply emits_bind; [by apply (emits_silent quiet)|]. intros _ _.
  destruct (returncode h argv =? 0); [by apply emits_ret | apply emits_raise].
Qed.

Lemma emits_mkdir_parents (d : string) :
  P (Mkdir d) → emits log P quiet (mkdir_parents d).
Proof.
  intros Hd. unfold mkdir_parents.
  eapply emits_bind; [by apply emits_emit|]. intros _ _.
  by apply (emits_silent quiet).
Qed.

Lemma emits_sudo_ok (h : Host) :
  P (Run ["sudo"; "-v"]) → emits log P quiet (sudo_ok h).
Proof.
  intros Hrun. unfold sudo_ok. apply emits_try_except.
  - eapply emits_bind; [by apply emits_subprocess_run|]. intros _ _.
    by apply emits_ret.
  - intros []; first [apply emits_raise | by apply emits_ret].
Qed.

Lemma emits_docker_inspect (h : Host) (c : string) :
  P (Run ["docker"; "inspect"; c]) → emits log P quiet (docker_inspect h c).
Proof.
  intros Hrun. unfold docker_inspect. apply emits_try_except.
  - eapply emits_bind; [by apply emits_subprocess_run|]. intros _ _.
    by apply emits_ret.
  - intros []; first [apply emits_raise | by apply emits_ret].
Qed.

Lemma emits_gather_container_mounts (h : Host) (cs : list string) :
  (∀ c, c ∈ cs → P (Run ["docker"; "inspect"; c])) →
  emits log P quiet (gather_container_mounts h cs).
Proof.
  intros Hrun. unfold gather_container_mounts.
  apply emits_for_fold; [done|]. intros info c _ Hc.
  eapply emits_bind; [by apply emits_docker_inspect, Hrun|].
  intros [data|] _; by apply emits_ret.
Qed.

(** The candidates [main] gathers all pass the inclusion test. *)
Lemma emits_gather_must (allowed : list string) :
  emits log P
    (Forall (λ b, should_include_path (src_of b) allowed = true))
    (gather_must allowed).
Proof.
  unfold gather_must. apply emits_for_fold; [constructor|].
  intros cands must Hc _.
  destruct (should_include_path must allowed) eqn:E; [|by apply emits_ret].
  eapply emits_bind; [apply emits_path_exists|]. intros [] _.
  - apply emits_ret. apply Forall_app. split; [done|]. by repeat constructor.
  - by apply emits_ret.
Qed.

Lemma emits_gather_binds (allowed : list string)
    (info : list (string * mounts_info)) (cands : list bind_mount) :
  Forall (λ b, should_include_path (src_of b) allowed = true) cands →
  emits log P
    (Forall (λ b, should_include_path (src_of b) allowed = true))
    (gather_binds allowed info cands).
Proof.
  intros Hc. unfold gather_binds. apply emits_for_fold; [done|].
  clear cands Hc. intros cands [cname [[img vols] binds]] Hc _.
  apply emits_for_fold; [done|]. clear cands Hc. intros cands m Hc _.
  destruct (_ || _); [by apply emits_ret|].
  eapply emits_bind; [apply emits_path_exists|]. intros ex _.
  destruct (ex && should_include_path _ allowed) eqn:E; [|by apply emits_ret].
  apply andb_true_iff in E as [_ E].
  apply emits_ret. apply Forall_app. split; [done|]. by repeat constructor.
Qed.

Lemma dedup_by_src_sublist (seen : gset string) (l : list bind_mount) :
  sublist (dedup_by_src seen l) l.
Proof.
  revert seen. induction l as [|b l IH]; intros seen; [done|]. simpl.
  case_bool_decide; [by apply sublist_cons | by apply sublist_skip].
Qed.

Lemma dedup_by_src_elem (seen : gset string) (l : list bind_mount) (b : bind_mount) :
  b ∈ dedup_by_src seen l → b ∈ l.
Proof.
  revert seen. induction l as [|c l IH]; intros seen; [done|]. simpl.
  case_bool_decide.
  - intros Hb. apply list_elem_of_further. by eapply IH.
  - intros [-> | Hb]%elem_of_cons; [apply list_elem_of_here|].
    apply list_elem_of_further. by eapply IH.
Qed.

Lemma emits_ensure_bind_archives (h : Host) (bind_mounts : list bind_mount)
    (bind_dir : string) (dry : bool) :
  P (Mkdir bind_dir) →
  (dry = false → ∀ b, b ∈ bind_mounts →
     P (Run (tar_of bind_dir b)) ∧ P (Run (chown_of h bind_dir b))) →
  emits log P quiet (ensure_bind_archives h bind_mounts bind_dir dry).
Proof.
  intros Hmk Hcmd. unfold ensure_bind_archives.
  eapply emits_bind; [by apply emits_mkdir_parents|]. intros _ _.
  eapply emits_bind; [apply emits_list_archives|]. intros existing _.
  apply emits_for_fold; [done|]. intros created [[cname src] dst] _ Hb.
  unfold archive_one. destruct (bool_decide _); [by apply emits_ret|].
  destruct dry.
  - eapply emits_bind; [apply emits_print|]. intros _ _. by apply emits_ret.
  - destruct (Hcmd eq_refl _ Hb) as [Htar Hchown].
    apply emits_try_except.
    + eapply emits_bind; [apply emits_print|]. intros _ _.
      eapply emits_bind; [by apply emits_subprocess_run|]. intros _ _.
      eapply emits_bind; [by apply emits_subprocess_run|]. intros _ _.
      by apply emits_ret.
    + intros []; try apply emits_raise.
      eapply emits_bind; [apply emits_eprint|]. intros _ _. by apply emits_ret.
Qed.

Lemma emits_rebuild_backup_image (h : Host) (script : string) :
  P (Run [script]) → emits log P quiet (rebuild_backup_image h script).
Proof.
  intros Hrun. unfold rebuild_backup_image.
  eapply emits_bind; [apply emits_print|]. intros _ _.
  apply emits_try_except; [by apply emits_subprocess_run|].
  intros []; first [apply emits_raise | apply emits_eprint].
Qed.

(** Everything [main] can run, for a backup resolved to [root]. *)
Lemma emits_patch (h : Host) (args : Args) (root : string) :
  let backup_binds := PosixPath.join root "bind-mounts" in
  (dry_run args = false → P (Run ["sudo"; "-v"])) →
  (∀ c, c ∈ containers args → P (Run ["docker"; "inspect"; c])) →
  P (Mkdir backup_binds) →
  (dry_run args = false → ∀ b,
     should_include_path (src_of b) (allowed_of h args) = true →
     P (Run (tar_of backup_binds b)) ∧ P (Run (chown_of h backup_binds b))) →
  (rebuild_image args = true →
   P (Run [PosixPath.join (home h) "make-backup-image.sh"])) →
  emits log P quiet (patch h args root).
Proof.
  intros backup_binds Hsudo Hinspect Hmk Hcmd Hscript. unfold patch.
  fold backup_binds. fold (allowed_of h args).
  eapply emits_bind; [apply emits_print|]. intros _ _.
  eapply (emits_bind _ _ quiet).
  { destruct (dry_run args) eqn:Edry; [by apply emits_ret|].
    eapply emits_bind; [by apply emits_sudo_ok, Hsudo|]. intros [] _.
    - by apply emits_ret.
    - eapply emits_bind; [apply emits_eprint|]. intros _ _. apply emits_raise. }
  intros _ _.
  eapply emits_bind; [by apply emits_gather_container_mounts|]. intros info _.
  eapply (emits_bind _ _ quiet).
  { destruct info; [apply emits_eprint | by apply emits_ret]. }
  intros _ _.
  eapply emits_bind; [apply emits_gather_must|]. intros cands0 Hc0.
  eapply emits_bind; [by apply emits_gather_binds|]. intros cands Hc.
  eapply emits_bind; [apply emits_list_archives|]. intros existing _.
  eapply emits_bind; [apply emits_print|]. intros _ _.
  eapply (emits_bind _ _ quiet).
  { destruct (missing_of _ _); apply emits_print. }
  intros _ _.
  eapply emits_bind.
  { apply emits_ensure_bind_archives; [done|]. intros Edry b Hb.
    apply Hcmd; [done|]. rewrite missing_of_fst in Hb.
    apply list_elem_of_In, filter_In in Hb as [Hb%list_elem_of_In _].
    apply dedup_by_src_elem in Hb. rewrite Forall_forall in Hc. by apply Hc. }
  intros created _.
  eapply emits_bind; [apply emits_list_archives|]. intros final _.
  eapply emits_bind; [apply emits_print|]. intros _ _.
  eapply (emits_bind _ _ quiet); [|intros _ _; apply emits_print].
  destruct (rebuild_image args) eqn:Ereb; [|by apply emits_ret].
  eapply emits_bind; [apply emits_path_exists|]. intros [] _.
  - by apply emits_rebuild_backup_image, Hscript.
  - apply emits_eprint.
Qed.

Lemma emits_main (h : Host) (args : Args) :
  (∀ root, emits log P quiet (patch h args root)) →
  emits log P quiet (main h args).
Proof.
  intros Hpatch. unfold main.
  destruct (match backup args with
            | Some (String a p) => Some (PosixPath.norm (String a p))
            | _ => latest_backup h
            end) as [root|].
  - eapply emits_bind; [apply emits_path_exists|]. intros [] _; [apply Hpatch|].
    eapply emits_bind; [apply emits_eprint|]. intros _ _. apply emits_raise.
  - eapply emits_bind; [apply emits_eprint|]. intros _ _. apply emits_raise.
Qed.

End patcher_traces.

(** ** What the patcher never does *)

Section patcher_never.

Import Patcher Notions.

(** A dry run of the patcher never runs [sudo], [tar] or [chown]: all
    it runs is [docker inspect] and, with [--rebuild-image], the
    rebuild script, and the only directory it makes is [bind-mounts]. *)
Theorem patcher_dry_run_events (h : Host) (args : Args) (w : World) :
  dry_run args = true →
  ∃ evs, log (main h args w).2 = log w ++ evs ∧ Forall (dry_event h args) evs.
Proof.
  intros Hdry.
  assert (H : emits log (dry_event h args) (λ _, True) (main h args)).
  { apply emits_main; [done..|]. intros root.
    apply emits_patch; [done | done | | | | |].
    - intros E. congruence.
    - intros c _. left. by exists c.
    - by exists root.
    - intros E. congruence.
    - intros E. by right. }
  destruct (H w) as (evs & Hlog & Hevs & _). by exists evs.
Qed.

Lemma patcher_dry_run_events_witness :
  ∃ evs, log (main quiet_host (dry_run_args true) quiet_world).2 =
           log quiet_world ++ evs ∧
         Forall (dry_event quiet_host (dry_run_args true)) evs.
Proof.
  exact (patcher_dry_run_events quiet_host (dry_run_args true) quiet_world eq_refl).
Defined.

(** Whatever the host and the arguments, every [tar] command the
    patcher runs archives a source path that passes the inclusion
    test against the allow-list, relative to [/], into the
    [bind-mounts] directory of a backup under the name derived from
    that path. *)
Theorem patcher_archives_only_allowed (h : Host) (args : Args) (w : World) :
  ∃ evs, log (main h args w).2 = log w ++ evs ∧ Forall (safe_event h args) evs.
Proof.
  assert (H : emits log (safe_event h args) (λ _, True) (main h args)).
  { apply emits_main; [by intros m path rel [=] ..|]. intros root.
    apply emits_patch;
      [by intros m path rel [=] | by intros m path rel [=] | | | | |].
    - by intros _ path rel [=].
    - by intros c _ path rel [=].
    - by intros path rel [=].
    - intros _ [[cname src] dst] Hb. split.
      + intros path rel [= <- <-]. by exists root, src.
      + by intros path rel [=].
    - by intros _ path rel [=]. }
  destruct (H w) as (evs & Hlog & Hevs & _). by exists evs.
Qed.

End patcher_never.

(** ** Fatal errors of the patcher *)

Section patcher_fatal.

Import Patcher Notions.

Ltac eff :=
  unfold path_exists, print, eprint, emit, subprocess_run;
  unfold Eff.try_except, Eff.try_finally, Eff.bind, Eff.ret, Eff.raise,
    Eff.modify, Eff.get;
  cbn [fs log fst snd].

(** When no backup directory can be resolved, or the resolved one
    does not exist, the patcher prints the error and exits with
    status 2 having done nothing else: no command is run and the file
    system is as it was. *)
Theorem main_without_backup (h : Host) (args : Args) (w : World) :
  (∀ root, resolved_backup h args = Some root → PosixPath.norm root ∉ fs w) →
  main h args w =
    (Eff.Raised (Eff.SystemExit (Eff.Code 2)),
     {| fs := fs w; log := log w ++ [Stderr ErrNoBackup] |}).
Proof.
  intros Hnone. unfold main. fold (resolved_backup h args).
  destruct (resolved_backup h args) as [root|]; [|done].
  eff. by rewrite bool_decide_eq_false_2 by by apply Hnone.
Qed.

Lemma main_without_backup_witness :
  main no_backup_host real_run_args quiet_world =
    (Eff.Raised (Eff.SystemExit (Eff.Code 2)),
     {| fs := fs quiet_world; log := log quiet_world ++ [Stderr ErrNoBackup] |}).
Proof.
  apply (main_without_backup no_backup_host real_run_args quiet_world).
  intros root H. discriminate H.
Defined.

(** Outside dry-run mode, when [sudo -v] is refused the patcher exits
    with status 1 right away: it has printed the backup in use and the
    error, and has run nothing but [sudo -v]; no container is
    inspected, no directory made, no archive written. *)
Theorem main_without_sudo (h : Host) (args : Args) (w : World) (root : string) :
  resolved_backup h args = Some root → PosixPath.norm root ∈ fs w →
  dry_run args = false → returncode h ["sudo"; "-v"] ≠ 0 →
  main h args w =
    (Eff.Raised (Eff.SystemExit (Eff.Code 1)),
     {| fs := effect h ["sudo"; "-v"] (fs w);
        log := log w ++ [Stdout (UsingBackup root); Run ["sudo"; "-v"];
                         Stderr ErrSudoRequired] |}).
Proof.
  intros Hroot Hex Hdry Hrc%Z.eqb_neq. unfold main. fold (resolved_backup h args).
  rewrite Hroot. unfold Eff.bind at 1. unfold path_exists at 1.
  unfold Eff.bind at 1, Eff.get at 1, Eff.ret at 1.
  rewrite bool_decide_eq_true_2 by done.
  unfold patch. rewrite Hdry. unfold sudo_ok. eff. rewrite Hrc. simpl.
  by rewrite <- !app_assoc.
Qed.

Lemma main_without_sudo_witness :
  main no_sudo real_run_args quiet_world =
    (Eff.Raised (Eff.SystemExit (Eff.Code 1)),
     {| fs := effect no_sudo ["sudo"; "-v"] (fs quiet_world);
        log := log quiet_world ++
               [Stdout (UsingBackup fresh_backup); Run ["sudo"; "-v"];
                Stderr ErrSudoRequired] |}).
Proof.
  apply (main_without_sudo no_sudo real_run_args quiet_world fresh_backup).
  - reflexivity.
  - apply (bool_decide_unpack (PosixPath.norm fresh_backup ∈ fs quiet_world)).
    by vm_compute.
  - reflexivity.
  - discriminate.
Defined.

End patcher_fatal.

(** ** Removal of repeats *)

Section dedup.

Import Patcher Notions.

Lemma dedup_seen_elem (seen : gset string) (l : list string) (x : string) :
  x ∈ Py.dedup_seen seen l ↔ x ∈ l ∧ x ∉ seen.
Proof.
  revert seen. induction l as [|p l IH]; intros seen; simpl.
  - split; [by intros ?%elem_of_nil | by intros [?%elem_of_nil _]].
  - destruct (decide (p ∈ seen)) as [Hp | Hp].
    + rewrite IH, elem_of_cons. split; [intros [? ?]; auto|].
      intros [[-> | ?] ?]; [done | auto].
    + rewrite !elem_of_cons, IH. split.
      * intros [-> | [? Hn]]; [auto|]. split; [auto|].
        intros Hin. apply Hn, elem_of_union. by right.
      * intros [[-> | Hx] Hn]; [auto|].
        destruct (decide (x = p)) as [-> | Hne]; [auto|].
        right. split; [done|].
        intros [Hin%elem_of_singleton | Hin]%elem_of_union; done.
Qed.

Lemma dedup_seen_NoDup (seen : gset string) (l : list string) :
  NoDup (Py.dedup_seen seen l).
Proof.
  revert seen. induction l as [|p l IH]; intros seen; simpl; [constructor|].
  destruct (decide (p ∈ seen)); [apply IH|].
  apply NoDup_cons. split; [|apply IH].
  intros [_ Hn]%dedup_seen_elem. apply Hn, elem_of_union. left.
  by apply elem_of_singleton.
Qed.

Lemma dedup_seen_sublist (seen : gset string) (l : list string) :
  sublist (Py.dedup_seen seen l) l.
Proof.
  revert seen. induction l as [|p l IH]; intros seen; [done|]. simpl.
  destruct (decide (p ∈ seen)); [by apply sublist_cons | by apply sublist_skip].
Qed.

Lemma should_include_path_exists (src : string) (prefixes : list string) :
  should_include_path src prefixes = true ↔
  ∃ p, p ∈ prefixes ∧ under_prefix src p = true.
Proof.
  induction prefixes as [|p ps IH]; simpl.
  - split; [done | intros (p & Hp & _); by apply elem_of_nil in Hp].
  - destruct (under_prefix src p) eqn:E.
    + split; [intros _ | done]. exists p. split; [left | done].
    + rewrite IH. split.
      * intros (q & Hq & H). exists q. split; [by right | done].
      * intros (q & Hq & H). apply elem_of_cons in Hq as [-> | Hq]; [|eauto].
        congruence.
Qed.

Lemma should_include_path_same_prefixes (src : string) (l1 l2 : list string) :
  (∀ p, p ∈ l1 ↔ p ∈ l2) →
  should_include_path src l1 = should_include_path src l2.
Proof.
  intros Heq. apply eq_true_iff_eq. rewrite !should_include_path_exists.
  split; intros (p & Hp & H); exists p; (split; [by apply Heq | done]).
Qed.

(** The allow-list [main] composes from the built-in prefixes and the
    extra ones holds every prefix once, in the order of first
    appearance, and admits exactly the paths that the list with its
    repeats would admit. *)
Theorem allowed_prefixes_deduplicated (l : list string) :
  NoDup (Py.dedup_seen ∅ l) ∧
  sublist (Py.dedup_seen ∅ l) l ∧
  (∀ p, p ∈ Py.dedup_seen ∅ l ↔ p ∈ l) ∧
  (∀ src, should_include_path src (Py.dedup_seen ∅ l) = should_include_path src l).
Proof.
  assert (Hel : ∀ p, p ∈ Py.dedup_seen ∅ l ↔ p ∈ l).
  { intros p. rewrite dedup_seen_elem. split; [by intros [? _]|].
    intros ?. split; [done | apply not_elem_of_empty]. }
  split_and!; [apply dedup_seen_NoDup | apply dedup_seen_sublist | done |].
  intros src. by apply should_include_path_same_prefixes.
Qed.

Lemma dedup_by_src_first (seen : gset string) (l : list bind_mount) (b : bind_mount) :
  b ∈ dedup_by_src seen l →
  (src_of b ∉ seen) ∧
  ∃ l1 l2, l = l1 ++ b :: l2 ∧ src_of b ∉ List.map src_of l1.
Proof.
  revert seen. induction l as [|c l IH]; intros seen; simpl.
  - by intros ?%elem_of_nil.
  - case_bool_decide as Hc.
    + intros Hb. destruct (IH _ Hb) as (Hn & l1 & l2 & -> & Hfirst).
      split; [done|]. exists (c :: l1), l2. split; [done|].
      simpl. intros [E | Hin]%elem_of_cons; [|done]. congruence.
    + intros [-> | Hb]%elem_of_cons.
      * split; [done|]. exists [], l. split; [done | apply not_elem_of_nil].
      * destruct (IH _ Hb) as (Hn & l1 & l2 & -> & Hfirst).
        assert (src_of b ≠ src_of c ∧ src_of b ∉ seen) as [Hne Hs].
        { split; intros ?; apply Hn, elem_of_union; [left | by right].
          by apply elem_of_singleton. }
        split; [done|]. exists (c :: l1), l2. split; [done|].
        simpl. by intros [E | Hin]%elem_of_cons.
Qed.

Lemma dedup_by_src_NoDup (seen : gset string) (l : list bind_mount) :
  NoDup (List.map src_of (dedup_by_src seen l)).
Proof.
  revert seen. induction l as [|c l IH]; intros seen; simpl; [constructor|].
  case_bool_decide; [apply IH|]. simpl. apply NoDup_cons. split; [|apply IH].
  intros [_ Hn]%dedup_by_src_srcs. apply Hn, elem_of_union. left.
  by apply elem_of_singleton.
Qed.

(** Candidates are de-duplicated by source path: after it no source
    is listed twice, every source of the candidates is still listed,
    and the candidate kept for a source is the first one that has it,
    so a host path mounted into several containers is archived once,
    under the container that came first. *)
Theorem dedup_by_src_keeps_first (l : list bind_mount) :
  NoDup (List.map src_of (dedup_by_src ∅ l)) ∧
  (∀ s, s ∈ List.map src_of (dedup_by_src ∅ l) ↔ s ∈ List.map src_of l) ∧
  (∀ b, b ∈ dedup_by_src ∅ l →
        ∃ l1 l2, l = l1 ++ b :: l2 ∧ src_of b ∉ List.map src_of l1).
Proof.
  split_and!.
  - apply dedup_by_src_NoDup.
  - intros s. rewrite dedup_by_src_srcs. split; [by intros [? _]|].
    intros ?. split; [done | apply not_elem_of_empty].
  - intros b Hb. by destruct (dedup_by_src_first _ _ _ Hb) as [_ ?].
Qed.

End dedup.

(** ** Gathering the mounts of the containers *)

Section gathering.

Import Patcher Notions.

Lemma docker_inspect_run (h : Host) (c : string) (w : World) :
  docker_inspect h c w =
  (Eff.Ok (inspected h c),
   {| fs := effect h ["docker"; "inspect"; c] (fs w);
      log := log w ++ [Run ["docker"; "inspect"; c]] |}).
Proof.
  unfold docker_inspect, inspected, subprocess_run, emit.
  unfold Eff.try_except, Eff.bind, Eff.ret, Eff.raise, Eff.modify.
  cbn [fs log fst snd].
  by destruct (returncode h ["docker"; "inspect"; c] =? 0).
Qed.

Lemma dict_set_keys {V} (k : string) (v : V) (d : list (string * V)) (k' : string) :
  k' ∈ List.map fst (dict_set k v d) ↔ k' = k ∨ k' ∈ List.map fst d.
Proof.
  induction d as [|[k0 v0] d IH]; simpl.
  - rewrite list_elem_of_singleton. split; [by left|].
    by intros [? | ?%elem_of_nil].
  - destruct (String.eqb_spec k0 k) as [-> | Hne]; simpl.
    + rewrite !elem_of_cons. tauto.
    + rewrite !elem_of_cons, IH. tauto.
Qed.

Lemma dict_set_NoDup {V} (k : string) (v : V) (d : list (string * V)) :
  NoDup (List.map fst d) → NoDup (List.map fst (dict_set k v d)).
Proof.
  induction d as [|[k0 v0] d IH]; simpl; intros Hnd.
  - apply NoDup_singleton.
  - apply NoDup_cons in Hnd as [Hk0 Hnd].
    destruct (String.eqb_spec k0 k) as [-> | Hne]; simpl.
    + by apply NoDup_cons.
    + apply NoDup_cons. split; [|by apply IH].
      intros [? | ?]%dict_set_keys; done.
Qed.

Lemma dict_set_elem {V} (k : string) (v : V) (d : list (string * V))
    (x : string * V) :
  x ∈ dict_set k v d → x = (k, v) ∨ x ∈ d.
Proof.
  induction d as [|[k0 v0] d IH]; simpl.
  - intros ->%list_elem_of_singleton. by left.
  - destruct (String.eqb_spec k0 k) as [-> | Hne].
    + intros [-> | ?]%elem_of_cons; [by left|]. right. by apply list_elem_of_further.
    + intros [-> | Hx]%elem_of_cons; [right; apply list_elem_of_here|].
      destruct (IH Hx); [by left|]. right. by apply list_elem_of_further.
Qed.

Lemma has_type_filter (t : string) (mounts : list Mount) :
  Forall (λ m, mType m = Some t) (List.filter (has_type t) mounts).
Proof.
  apply Forall_forall. intros m [_ Hm]%list_elem_of_In%filter_In.
  unfold has_type in Hm. destruct (mType m) as [t'|]; [|done].
  by apply String.eqb_eq in Hm as ->.
Qed.

Lemma gather_loop (h : Host) (cs : list string) (info0 : list (string * mounts_info))
    (w : World) :
  NoDup (List.map fst info0) → Forall well_typed info0 →
  ∃ info w',
    Eff.for_fold cs info0
      (λ info name,
         data <- docker_inspect h name ;;
         match data with
         | None => Eff.ret info
         | Some data =>
             let image :=
               match ConfigImage data with
               | Some (String a i) => String a i
               | _ => default "" (Image data)
               end in
             let mounts := default [] (Mounts data) in
             let vols := List.filter (has_type "volume") mounts in
             let binds := List.filter (has_type "bind") mounts in
             Eff.ret (dict_set name (image, vols, binds) info)
         end) w = (Eff.Ok info, w') ∧
    log w' = log w ++ List.map (λ c, Run ["docker"; "inspect"; c]) cs ∧
    NoDup (List.map fst info) ∧ Forall well_typed info ∧
    ∀ c, c ∈ List.map fst info ↔
         c ∈ List.map fst info0 ∨ (c ∈ cs ∧ is_Some (inspected h c)).
Proof.
  revert info0 w. induction cs as [|c cs IH]; intros info0 w Hnd Hty.
  - exists info0, w. simpl. rewrite app_nil_r. split_and!; [done..|].
    intros c. split; [by left|]. by intros [? | [?%elem_of_nil _]].
  - rewrite for_fold_cons. unfold Eff.bind at 1. rewrite docker_inspect_run.
    set (w1 := {| fs := effect h ["docker"; "inspect"; c] (fs w);
                  log := log w ++ [Run ["docker"; "inspect"; c]] |}).
    destruct (inspected h c) as [data|] eqn:Ec; unfold Eff.ret at 1;
      cbv beta iota zeta.
    + match goal with
      | |- context [Eff.for_fold cs ?i _ w1] =>
          destruct (IH i w1) as (info & w' & Hrun & Hlog & Hnd' & Hty' & Hkeys)
      end.
      { by apply dict_set_NoDup. }
      { apply Forall_forall. intros x [-> | Hx]%dict_set_elem.
        - split; apply has_type_filter.
        - rewrite Forall_forall in Hty. by apply Hty. }
      exists info, w'. split_and!; [exact Hrun | | done | done |].
      * rewrite Hlog. simpl. by rewrite <- app_assoc.
      * intros c'. rewrite Hkeys, dict_set_keys, elem_of_cons. split.
        -- intros [[-> | ?] | [? ?]]; [right | by left | right].
           ++ split; [by left | by rewrite Ec].
           ++ split; [by right | done].
        -- intros [? | [[-> | ?] ?]]; [left; by right | left; by left | right; done].
    + destruct (IH info0 w1)
        as (info & w' & Hrun & Hlog & Hnd' & Hty' & Hkeys); [done..|].
      exists info, w'. split_and!; [exact Hrun | | done | done |].
      * rewrite Hlog. simpl. by rewrite <- app_assoc.
      * intros c'. rewrite Hkeys, elem_of_cons. split.
        -- intros [? | [? ?]]; [by left | right; split; [by right | done]].
        -- intros [? | [[-> | ?] Hs]]; [by left | | right; done].
           rewrite Ec in Hs. by destruct Hs.
Qed.

(** Gathering the mounts never fails: every container of the list is
    inspected once per mention, in order; a container that cannot be
    inspected is skipped; the result has one entry for each container
    that could be inspected, with its volume mounts and its bind
    mounts told apart by their type. *)
Theorem gather_container_mounts_skips_failures
    (h : Host) (cs : list string) (w : World) :
  ∃ info w',
    gather_container_mounts h cs w = (Eff.Ok info, w') ∧
    log w' = log w ++ List.map (λ c, Run ["docker"; "inspect"; c]) cs ∧
    NoDup (List.map fst info) ∧
    (∀ c, c ∈ List.map fst info ↔ c ∈ cs ∧ is_Some (inspected h c)) ∧
    (∀ c img vols binds, (c, (img, vols, binds)) ∈ info →
       Forall (λ m, mType m = Some "volume") vols ∧
       Forall (λ m, mType m = Some "bind") binds).
Proof.
  destruct (gather_loop h cs [] w) as (info & w' & Hrun & Hlog & Hnd & Hty & Hkeys);
    [constructor | constructor |].
  exists info, w'. split_and!; [done..| |].
  - intros c. rewrite Hkeys. split; [by intros [?%elem_of_nil | ?] | by right].
  - intros c img vols binds Hin. rewrite Forall_forall in Hty.
    apply (Hty _ Hin).
Qed.

End gathering.

(** ** Normal forms of paths *)

Section normal_forms.

Import Patcher.

Local Abbreviation no_slash := (λ p, Py.contains p "/" = false).

Ltac by_bits a := destruct a as [[] [] [] [] [] [] [] []]; try done.

Lemma contains_slash_cons (a : ascii) (s : string) :
  Py.contains (String a s) "/" = Ascii.eqb a "/" || Py.contains s "/".
Proof. simpl. by rewrite andb_true_r. Qed.

Lemma no_slash_start (p : string) :
  Py.contains p "/" = false → Py.startswith p "/" = false.
Proof.
  destruct p as [|a p]; [done|]. rewrite contains_slash_cons.
  intros [E _]%orb_false_iff. simpl. by rewrite E.
Qed.

Lemma split_no_slash (p : string) :
  Py.contains p "/" = false → Py.split "/" p = [p].
Proof.
  induction p as [|a p IH]; [done|]. rewrite contains_slash_cons.
  intros [E Hp]%orb_false_iff. simpl. by rewrite E, IH.
Qed.

Lemma split_app_sep (p t : string) :
  Py.contains p "/" = false →
  Py.split "/" (p +:+ "/" +:+ t) = p :: Py.split "/" t.
Proof.
  induction p as [|a p IH]; [done|]. rewrite contains_slash_cons.
  intros [E Hp]%orb_false_iff. rewrite append_cons. simpl. by rewrite E, IH.
Qed.

Lemma split_join (ps : list string) :
  ps ≠ [] → Forall no_slash ps → Py.split "/" (Py.join "/" ps) = ps.
Proof.
  induction ps as [|p ps IH]; [done|]. intros _ [Hp Hps]%Forall_cons.
  destruct ps as [|q ps]; [by apply split_no_slash|].
  change (Py.join "/" (p :: q :: ps))
    with (p +:+ "/" +:+ Py.join "/" (q :: ps)).
  rewrite split_app_sep by done. by rewrite IH.
Qed.

Lemma split_elem_no_slash (s : string) : Forall no_slash (Py.split "/" s).
Proof.
  induction s as [|a s IH]; [by repeat constructor|]. simpl.
  destruct (Ascii.eqb a "/") eqn:E; [by constructor|].
  destruct (Py.split "/" s) as [|x xs].
  - repeat constructor. by rewrite contains_slash_cons, E.
  - apply Forall_cons in IH as [Hx Hxs]. constructor; [|done].
    by rewrite contains_slash_cons, E.
Qed.

Lemma filter_all {A} (f : A → bool) (l : list A) :
  Forall (λ x, f x = true) l → List.filter f l = l.
Proof. induction 1 as [|x l Hx _ IH]; [done|]. simpl. by rewrite Hx, IH. Qed.

Lemma filter_Forall {A} (f : A → bool) (l : list A) :
  Forall (λ x, f x = true) (List.filter f l).
Proof.
  apply Forall_forall. by intros x [_ Hx]%list_elem_of_In%filter_In.
Qed.

Lemma filter_keeps_Forall {A} (P : A → Prop) (f : A → bool) (l : list A) :
  Forall P l → Forall P (List.filter f l).
Proof.
  rewrite !Forall_forall. intros Hl x [Hx _]%list_elem_of_In%filter_In.
  by apply Hl, list_elem_of_In.
Qed.

Lemma splitroot_roots (s : string) :
  (PosixPath.splitroot s).1 = "" ∨ (PosixPath.splitroot s).1 = "/" ∨
  (PosixPath.splitroot s).1 = "//".
Proof.
  destruct s as [|a r]; [by left|]. by_bits a; try by left.
  destruct r as [|b r]; [right; by left|]. by_bits b; try (right; by left).
  destruct r as [|c r]; [right; by right|]. by_bits c; try (right; by right).
  right. by left.
Qed.

Lemma splitroot_relative (x : string) :
  Py.startswith x "/" = false → PosixPath.splitroot x = ("", x).
Proof. destruct x as [|a r]; [done|]. by_bits a. Qed.

Lemma splitroot_one (x : string) :
  Py.startswith x "/" = false → PosixPath.splitroot (String "/" x) = ("/", x).
Proof. destruct x as [|a r]; [done|]. by_bits a. Qed.

Lemma splitroot_two (x : string) :
  Py.startswith x "/" = false →
  PosixPath.splitroot (String "/" (String "/" x)) = ("//", x).
Proof. destruct x as [|a r]; [done|]. by_bits a. Qed.

Lemma join_start (ps : list string) :
  Forall no_slash ps → Forall (λ p, PosixPath.kept_part p = true) ps →
  Py.startswith (Py.join "/" ps) "/" = false.
Proof.
  destruct ps as [|p ps]; [done|].
  intros [Hp _]%Forall_cons [Hk _]%Forall_cons.
  assert (Py.startswith p "/" = false) as Hs by by apply no_slash_start.
  destruct p as [|a p]; [done|].
  destruct ps as [|q ps]; [done|].
  change (Py.join "/" (String a p :: q :: ps))
    with (String a p +:+ "/" +:+ Py.join "/" (q :: ps)).
  rewrite append_cons. simpl in *. by destruct (Ascii.eqb a "/").
Qed.

Lemma norm_of_parts (root : string) (ps : list string) :
  root = "" ∨ root = "/" ∨ root = "//" →
  Forall no_slash ps → Forall (λ p, PosixPath.kept_part p = true) ps →
  root +:+ Py.join "/" ps ≠ "" →
  PosixPath.norm (root +:+ Py.join "/" ps) = root +:+ Py.join "/" ps.
Proof.
  intros Hroot Hns Hk Hne.
  pose proof (join_start ps Hns Hk) as Hstart.
  assert (Hsplit : PosixPath.splitroot (root +:+ Py.join "/" ps) =
                   (root, Py.join "/" ps)).
  { destruct Hroot as [-> | [-> | ->]].
    - by apply splitroot_relative.
    - by apply splitroot_one.
    - by apply splitroot_two. }
  unfold PosixPath.norm. rewrite Hsplit.
  assert (List.filter PosixPath.kept_part (Py.split "/" (Py.join "/" ps)) = ps)
    as ->.
  { destruct ps as [|p ps]; [done|].
    rewrite split_join by done. by apply filter_all. }
  by rewrite (proj2 (String.eqb_neq _ _) Hne).
Qed.

(** Printing a path and reading it back gives the same path. *)
Lemma norm_idempotent (s : string) :
  PosixPath.norm (PosixPath.norm s) = PosixPath.norm s.
Proof.
  unfold PosixPath.norm at 2 3.
  pose proof (splitroot_roots s) as Hroot.
  destruct (PosixPath.splitroot s) as [root rel]. simpl in Hroot.
  cbv beta iota zeta.
  set (ps := List.filter PosixPath.kept_part (Py.split "/" rel)).
  destruct (String.eqb_spec (root +:+ Py.join "/" ps) "") as [E | Hne]; [done|].
  apply norm_of_parts; [done | | apply filter_Forall | done].
  apply filter_keeps_Forall, split_elem_no_slash.
Qed.

(** The inclusion test does not depend on how the path and the
    prefixes are spelled: with doubled or trailing separators and
    [.] components removed from any of them it gives the same
    answer. *)
Theorem should_include_path_normal_forms (src : string) (prefixes : list string) :
  should_include_path (PosixPath.norm src) (List.map PosixPath.norm prefixes) =
  should_include_path src prefixes.
Proof.
  induction prefixes as [|p ps IH]; [done|]. simpl.
  unfold under_prefix at 1. rewrite !norm_idempotent.
  fold (under_prefix src p). by rewrite IH.
Qed.

End normal_forms.

(** ** The inspector cleans up *)

Section inspector_cleanup.

Import Inspector Notions.

Variable report : string → Eff.M World unit.

Ltac eff :=
  unfold create_container, docker_cp, rm_container, set_cid, run, spawn,
    print, eprint, emit;
  unfold Eff.try_except, Eff.try_finally, Eff.bind, Eff.ret, Eff.raise,
    Eff.modify, Eff.get;
  cbn [fs log cid fst snd].

(** However the inspection ends (normally, with an exit, or with an
    exception, of the report as well), the last thing [main] does is
    to remove the temporary directory: afterwards neither the
    directory nor anything under it exists. *)
Theorem inspect_removes_tmp (h : Host) (image : string) (w : World) :
  let w' := (inspect report h image w).2 in
  last (log w') = Some (Rmtree (tmp h)) ∧ ∀ p, p ∈ fs w' → ¬ in_tmp h p.
Proof.
  unfold inspect.
  set (body := Eff.try_except _ _). set (rm := Eff.bind Eff.get _).
  cbv [Eff.bind emit Eff.modify Eff.try_finally].
  destruct (body _) as [r s1]. destruct (rm s1) as [r2 s2].
  destruct r2; cbn [snd log fs]; (split; [apply last_snoc|]);
    by intros p [Hp _]%elem_of_filter.
Qed.

(** Once [docker create] has succeeded and printed an id, the
    container is removed before the temporary directory is, however
    the rest of the inspection ends: a failing [docker cp], a
    missing bundle or an exception of the report leave no container
    behind. *)
Theorem inspect_removes_container (h : Host) (image : string) (w : World) :
  (∀ d s, cid (report d s).2 = cid s) →
  returncode h (create_argv image) = 0 →
  create_out h ≠ "" →
  ∃ evs, log (inspect report h image w).2 =
         evs ++ [rm_of (create_out h); Rmtree (tmp h)].
Proof.
  intros Hreport Hcreate Hid.
  unfold inspect.
  set (body := Eff.try_except _ _).
  cbv [Eff.bind emit Eff.modify Eff.try_finally Eff.get].
  match goal with |- context [body ?s] => set (w0 := s) end.
  assert (cid (body w0).2 = Some (create_out h)) as Hcid.
  { subst body. eff. rewrite Hcreate. cbn [Z.eqb].
    destruct (returncode h _ =? 0); [|done].
    cbn [fs log cid fst snd]. case_bool_decide.
    - match goal with |- context [report ?d ?s] =>
        pose proof (Hreport d s) as Hc; destruct (report d s) as [[|e] s'] end;
        [done|]. by destruct e.
    - done. }
  destruct (body w0) as [r s1]. cbn [snd] in Hcid.
  destruct (create_out h) as [|a c] eqn:Hout; [done|].
  rewrite Hcid. unfold rm_container, spawn. eff.
  exists (log s1). unfold rm_of. rewrite <- !app_assoc. by destruct r.
Qed.

(** When the image holds no [/bundle], the inspector says so on the
    error stream and exits with status 3, having run [docker create]
    and [docker cp] only, and cleans up. *)
Theorem inspect_without_bundle (h : Host) (image : string) (w : World) :
  returncode h (create_argv image) = 0 →
  returncode h (cp_bundle_argv h) = 0 →
  PosixPath.join (tmp h) "bundle" ∉
    effect h (cp_bundle_argv h)
      (effect h (create_argv image) ({[PosixPath.norm (tmp h)]} ∪ fs w)) →
  ∃ w',
    inspect report h image w = (Eff.Raised (Eff.SystemExit (Eff.Code 3)), w') ∧
    log w' = log w ++
      [Mkdtemp (tmp h); Stdout (UsingImage image); Run (create_argv image);
       Run (cp_bundle_argv h); Stderr ErrNoBundle] ++
      (if String.eqb (create_out h) "" then [] else [rm_of (create_out h)]) ++
      [Rmtree (tmp h)].
Proof.
  intros Hcreate Hcp Hbundle. unfold cp_bundle_argv in *.
  unfold inspect. eff. rewrite Hcreate. cbn [Z.eqb fs log cid fst snd].
  rewrite Hcp. cbn [Z.eqb fs log cid fst snd].
  rewrite bool_decide_false by done. cbn [fs log cid fst snd].
  destruct (create_out h) as [|a c]; cbn [String.eqb fs log cid fst snd].
  - eexists. split; [reflexivity|]. cbn [log]. by rewrite <- !app_assoc.
  - eexists. split; [reflexivity|]. cbn [log]. unfold rm_of.
    by rewrite <- !app_assoc.
Qed.

End inspector_cleanup.

Lemma inspect_removes_container_witness :
  ∃ evs, Inspector.log
           (Inspector.inspect (λ _, Eff.ret tt) Notions.empty_image
              "homelab-backup:2025-08-13_090000" Notions.before_inspect).2 =
         evs ++ [Notions.rm_of "3f2a9c"; Inspector.Rmtree "/tmp/bundle-inspect-x1"].
Proof.
  apply (inspect_removes_container (λ _, Eff.ret tt) Notions.empty_image
           "homelab-backup:2025-08-13_090000" Notions.before_inspect).
  - reflexivity.
  - reflexivity.
  - discriminate.
Defined.

Lemma inspect_without_bundle_witness :
  ∃ w',
    Inspector.inspect (λ _, Eff.ret tt) Notions.empty_image
      "homelab-backup:2025-08-13_090000" Notions.before_inspect =
    (Eff.Raised (Eff.SystemExit (Eff.Code 3)), w') ∧
    Inspector.log w' =
      [Inspector.Mkdtemp "/tmp/bundle-inspect-x1";
       Inspector.Stdout (Inspector.UsingImage "homelab-backup:2025-08-13_090000");
       Inspector.Run ["docker"; "create"; "homelab-backup:2025-08-13_090000"];
       Inspector.Run ["docker"; "cp"; "3f2a9c:/bundle"; "/tmp/bundle-inspect-x1"];
       Inspector.Stderr Inspector.ErrNoBundle;
       Notions.rm_of "3f2a9c";
       Inspector.Rmtree "/tmp/bundle-inspect-x1"].
Proof.
  apply (inspect_without_bundle (λ _, Eff.ret tt) Notions.empty_image
           "homelab-backup:2025-08-13_090000" Notions.before_inspect).
  - reflexivity.
  - reflexivity.
  - apply (bool_decide_unpack
             (PosixPath.join (Inspector.tmp Notions.empty_image) "bundle" ∉
              Inspector.effect Notions.empty_image
                (Notions.cp_bundle_argv Notions.empty_image)
                (Inspector.effect Notions.empty_image
                   (Inspector.create_argv "homelab-backup:2025-08-13_090000")
                   ({[PosixPath.norm (Inspector.tmp Notions.empty_image)]}
                    ∪ Inspector.fs Notions.before_inspect)))).
    by vm_compute.
Defined.

(** ** Archive names are file names *)

Section archive_layout.

Import Patcher.

Lemma contains_char_cons (c a : ascii) (s : string) :
  Py.contains (String a s) (String c "") = Ascii.eqb a c || Py.contains s (String c "").
Proof. simpl. by rewrite andb_true_r. Qed.

Lemma contains_char_app (c : ascii) (s t : string) :
  Py.contains (s +:+ t) (String c "") =
  Py.contains s (String c "") || Py.contains t (String c "").
Proof.
  induction s as [|a s IH].
  - reflexivity.
  - rewrite append_cons, !contains_char_cons, IH. by rewrite orb_assoc.
Qed.

Lemma replace_removes (s : string) :
  Py.contains (Py.replace "/" "__" s) "/" = false.
Proof.
  induction s as [|a s IH]; [done|]. simpl Py.replace.
  destruct (Ascii.eqb a "/") eqn:E.
  - by rewrite contains_char_app, IH.
  - by rewrite contains_char_cons, E, IH.
Qed.

Lemma append_empty_r (s : string) : s +:+ "" = s.
Proof. induction s as [|a s IH]; [done|]. by rewrite append_cons, IH. Qed.

Lemma rev_app_acc (s acc : string) :
  String.rev_app s acc = String.rev s +:+ acc.
Proof.
  unfold String.rev. revert acc. induction s as [|a s IH]; intros acc; [done|].
  cbn [String.rev_app]. rewrite (IH (String a acc)), (IH (String a "")).
  by rewrite append_assoc.
Qed.

Lemma rev_cons (a : ascii) (s : string) :
  String.rev (String a s) = String.rev s +:+ String a "".
Proof. unfold String.rev at 1. cbn [String.rev_app]. apply rev_app_acc. Qed.

Lemma rev_app (s t : string) :
  String.rev (s +:+ t) = String.rev t +:+ String.rev s.
Proof.
  induction s as [|a s IH].
  - change ("" +:+ t) with t. change (String.rev "") with "".
    by rewrite append_empty_r.
  - by rewrite append_cons, !rev_cons, IH, append_assoc.
Qed.

Lemma startswith_app (p x : string) : Py.startswith (p +:+ x) p = true.
Proof.
  induction p as [|a p IH]; [done|]. rewrite append_cons. simpl.
  by rewrite Ascii.eqb_refl, IH.
Qed.

Lemma endswith_app (x p : string) : Py.endswith (x +:+ p) p = true.
Proof. unfold Py.endswith. rewrite rev_app. apply startswith_app. Qed.

(** The name of an archive is a file name, whatever the source path
    is: it holds no path separator, so the archive of every path goes
    straight into the [bind-mounts] directory, and it ends in
    [.tar.gz], so [list_archives] finds it there. *)
Theorem archive_name_is_flat (src : string) :
  Py.contains (safe_archive_name_from_src src) "/" = false ∧
  Py.endswith (safe_archive_name_from_src src) ".tar.gz" = true.
Proof.
  unfold safe_archive_name_from_src. split.
  - by rewrite contains_char_app, replace_removes.
  - apply endswith_app.
Qed.

End archive_layout.

(** ** The provisioner's runs *)

Section provisioner_runs.

Import Provisioner Notions.

Ltac eff :=
  unfold exec_sql_in_container, gravity_update, container_has_sqlite3,
    with_tempdir, docker_cp_out, docker_cp_in, run, spawn, print, emit;
  unfold Eff.try_except, Eff.try_finally, Eff.bind, Eff.ret, Eff.raise,
    Eff.modify, Eff.get;
  cbn [gravity files log fst snd].

(** When the SQL fails inside the container, the run ends with the
    failure of that command: gravity is not rebuilt and nothing more
    is run. *)
Theorem main_sql_failure_stops (h : Host) (name : string) (w : World) :
  name ≠ "" →
  returncode h (has_sqlite3_argv name) = 0 →
  returncode h (exec_sql_argv name whole_sql) ≠ 0 →
  ∃ w',
    main h (full_run name) w =
    (Eff.Raised (Eff.CalledProcessError
                   (returncode h (exec_sql_argv name whole_sql))
                   (exec_sql_argv name whole_sql)), w') ∧
    log w' = log w ++
      [Stdout (TargetContainer name); Stdout Ensuring;
       Run (has_sqlite3_argv name); Run (exec_sql_argv name whole_sql)].
Proof.
  intros Hname Hhas Hsql. destruct name as [|a c]; [done|].
  unfold main, full_run. cbn [container dry_run list_only]. eff.
  rewrite Hhas. cbn [Z.eqb gravity files log fst snd].
  rewrite (proj2 (Z.eqb_neq _ _) Hsql).
  eexists. split; [reflexivity|]. cbn [log]. by rewrite <- !app_assoc.
Qed.

(** Without [sqlite3] in the container and with a table missing from
    its database, the run stops at the schema check: the database is
    not copied back into the container, gravity is not rebuilt, and
    the temporary directory is cleaned up. *)
Theorem main_fallback_bad_schema (h : Host) (name : string) (w : World) (db : Db) :
  name ≠ "" →
  returncode h (has_sqlite3_argv name) ≠ 0 →
  (∀ local_db, returncode h (cp_out_argv name local_db) = 0) →
  exec_effect h (has_sqlite3_argv name) (gravity w) = Some db →
  group_t db = None ∨ adlist_t db = None ∨ adlist_by_group_t db = None →
  ∃ td w',
    main h (full_run name) w =
    (Eff.Raised
       (Eff.SystemExit
          (Eff.Text ("Unexpected DB schema; missing tables: " +:+
                     Py.join ", " (Py.sorted (missing_tables db))))), w') ∧
    gravity w' = Some db ∧
    log w' = log w ++
      [Stdout (TargetContainer name); Stdout Ensuring;
       Run (has_sqlite3_argv name); Mkdtemp td;
       Run (cp_out_argv name (PosixPath.os_join td "gravity.db"));
       Sql SelectTables; Close; Cleanup td].
Proof.
  intros Hname Hhas Hcp Hdb Hmiss. destruct name as [|a c]; [done|].
  unfold main, full_run. cbn [container dry_run list_only]. eff.
  rewrite (proj2 (Z.eqb_neq _ _) Hhas). cbn [gravity files log fst snd].
  rewrite Hcp. cbn [Z.eqb gravity files log fst snd]. rewrite Hdb.
  match goal with |- context [edit_db_on_host h ?p ?s] =>
    rewrite (edit_db_on_host_stops h p s db);
      [|cbn [files]; apply lookup_insert_eq | done]
  end.
  unfold logged. cbn [gravity files log fst snd].
  eexists _, _. split; [reflexivity|]. cbn [gravity log].
  split; [done|]. by rewrite <- !app_assoc.
Qed.

End provisioner_runs.
